(** * Tourism agent: trend ranking, file deduplication, publishing and analytics

    A shallow embedding of the parts of the tourism agent pipeline that carry
    its stated properties:

    - [utils/file_manager.py]      : [deduplicate_files]
    - [agents/trend_agent.py]      : [analyze_and_rank_trends], [get_best_topic]
    - [agents/publisher_agent.py]  : the retry loops of the four publishers,
                                     [schedule_post], [_load_queue], [_save_queue]
    - [agents/analytics_agent.py]  : [_init_db], [store_metrics]

    Python [str] values are modelled by [string]; a character is a code point
    in the range U+0000..U+00FF.  Python [int] is [Z] and [float] is the
    binary64 type of primitive floats.  Exceptions are explicit results; the
    file system, the HTTP transport, the queue file and the database are
    explicit states or parameters. *)

From stdpp Require Import gmap strings list fin_maps sorting.
From Stdlib Require Import ZArith Lia Ascii.
From Stdlib Require DecimalString.
From Stdlib Require PrimFloat SpecFloat FloatOps.
Import PrimFloat.

Local Open Scope string_scope.
Local Open Scope list_scope.

(** ** utils/file_manager.py *)

Module FileManager.

(** A [Path] is the text of a [pathlib.Path]; a [Digest] is the hexadecimal
    text returned by [hashlib.md5().hexdigest()]. *)
Definition Path := string.
Definition Digest := string.

(** Membership in a [seen] set built by unions of singletons. *)
Ltac seen_solver :=
  repeat first [rewrite elem_of_union | rewrite elem_of_singleton
               | rewrite elem_of_empty];
  intuition congruence.

Section Dedup.

(** The file system during one run: [fs p] is the whole content of the file
    at [p], or [None] when opening or reading it raises. *)
Variable fs : Path -> option (list Byte.byte).

(** [hashlib.md5], fed chunk by chunk, is the MD5 digest of the whole
    content. *)
Variable md5 : list Byte.byte -> Digest.

(** [file_hash]: [None] stands for the exception raised by [open]/[read]. *)
Definition file_hash (p : Path) : option Digest := md5 <$> fs p.

(** The [for p in paths] loop of [deduplicate_files], with its two
    accumulators [seen] and [unique]. *)
Fixpoint dedup_loop (seen : gset Digest) (unique : list Path)
         (paths : list Path) : list Path :=
  match paths with
  | [] => unique
  | p :: rest =>
      match file_hash p with
      | Some h =>
          if decide (h ∈ seen)
          then dedup_loop seen unique rest
          else dedup_loop ({[h]} ∪ seen) (unique ++ [p]) rest
      | None => dedup_loop seen (unique ++ [p]) rest
      end
  end.

Definition deduplicate_files (paths : list Path) : list Path :=
  dedup_loop ∅ [] paths.

(** *** The specification's reading of deduplication

    An element is kept when it cannot be hashed, or when no element before
    it has the same hash. *)
Definition first_of_its_hash (before : list Path) (p : Path) : bool :=
  match file_hash p with
  | None => true
  | Some h => bool_decide (Some h ∉ file_hash <$> before)
  end.

Fixpoint keep_firsts (before rest : list Path) : list Path :=
  match rest with
  | [] => []
  | p :: rest' =>
      (if first_of_its_hash before p then [p] else [])
        ++ keep_firsts (before ++ [p]) rest'
  end.

Definition hashable (p : Path) : bool :=
  match file_hash p with Some _ => true | None => false end.

(** *** Lemmas on the loop *)

(** The loop written without the [unique] accumulator. *)
Fixpoint dedup_from (seen : gset Digest) (paths : list Path) : list Path :=
  match paths with
  | [] => []
  | p :: rest =>
      match file_hash p with
      | Some h =>
          if decide (h ∈ seen) then dedup_from seen rest
          else p :: dedup_from ({[h]} ∪ seen) rest
      | None => p :: dedup_from seen rest
      end
  end.

Lemma dedup_loop_from seen unique paths :
  dedup_loop seen unique paths = unique ++ dedup_from seen paths.
Proof.
  revert seen unique.
  induction paths as [|p rest IH]; intros seen unique; simpl.
  - by rewrite app_nil_r.
  - destruct (file_hash p) as [h|]; [case_decide|];
      rewrite IH; by rewrite <- ?app_assoc.
Qed.

Lemma deduplicate_files_from paths :
  deduplicate_files paths = dedup_from ∅ paths.
Proof. unfold deduplicate_files. by rewrite dedup_loop_from. Qed.

(** [seen] holds exactly the hashes of the elements already visited. *)
Lemma dedup_from_keep_firsts seen before rest :
  (∀ h, h ∈ seen ↔ Some h ∈ file_hash <$> before) →
  dedup_from seen rest = keep_firsts before rest.
Proof.
  revert seen before.
  induction rest as [|p rest IH]; intros seen before Hseen; [done|].
  simpl. unfold first_of_its_hash.
  destruct (file_hash p) as [h|] eqn:Hp.
  - case_decide as Hin.
    + rewrite bool_decide_eq_false_2; [|rewrite <- Hseen; tauto].
      simpl. apply IH. intros h'. rewrite fmap_app, elem_of_app, <- Hseen.
      simpl. rewrite Hp, list_elem_of_singleton. split; [tauto|].
      intros [?|[= ->]]; done.
    + rewrite bool_decide_eq_true_2; [|by rewrite <- Hseen].
      simpl. f_equal. apply IH. intros h'.
      rewrite fmap_app, elem_of_app, <- Hseen. simpl.
      rewrite Hp, list_elem_of_singleton, elem_of_union, elem_of_singleton.
      split; [intros [->|?]; auto|intros [?|[= ->]]; auto].
  - simpl. f_equal. apply IH. intros h'.
    rewrite fmap_app, elem_of_app, <- Hseen. simpl.
    rewrite Hp, list_elem_of_singleton. split; [tauto|].
    intros [?|?]; done.
Qed.

Lemma dedup_from_sublist seen paths : sublist (dedup_from seen paths) paths.
Proof.
  revert seen. induction paths as [|p rest IH]; intros seen; simpl.
  - constructor.
  - destruct (file_hash p); [case_decide|]; by constructor.
Qed.

(** The hashes of the kept elements are pairwise distinct and new. *)
Lemma dedup_from_fresh seen paths h :
  h ∈ omap file_hash (dedup_from seen paths) → h ∉ seen.
Proof.
  revert seen. induction paths as [|p rest IH]; intros seen; simpl.
  - by intros ?%elem_of_nil.
  - destruct (file_hash p) as [h'|] eqn:Hp; [case_decide|]; simpl;
      rewrite ?Hp; simpl; eauto.
    intros [->|Hin]%elem_of_cons; [done|].
    apply IH in Hin. set_solver.
Qed.

Lemma dedup_from_NoDup seen paths :
  NoDup (omap file_hash (dedup_from seen paths)).
Proof.
  revert seen. induction paths as [|p rest IH]; intros seen; simpl.
  - constructor.
  - destruct (file_hash p) as [h'|] eqn:Hp; [case_decide|]; simpl;
      rewrite ?Hp; simpl; eauto.
    constructor; [|done].
    intros Hin%dedup_from_fresh. set_solver.
Qed.

(** Every hash met in the input is a hash of a kept element, or was seen. *)
Lemma dedup_from_hashes seen paths h :
  h ∈ omap file_hash paths →
  h ∈ seen ∨ h ∈ omap file_hash (dedup_from seen paths).
Proof.
  revert seen. induction paths as [|p rest IH]; intros seen; simpl.
  - by intros ?%elem_of_nil.
  - destruct (file_hash p) as [h'|] eqn:Hp; simpl.
    + intros [->|Hin]%elem_of_cons.
      * case_decide; [by left|]. right. simpl. rewrite Hp. by left.
      * case_decide.
        -- by apply IH.
        -- simpl. rewrite Hp. simpl.
           destruct (IH ({[h']} ∪ seen) Hin) as [Hs|Hk].
           ++ apply elem_of_union in Hs as [->%elem_of_singleton|?];
                [right; by left|by left].
           ++ right. by right.
    + intros Hin. rewrite Hp. by apply IH.
Qed.

Lemma dedup_from_unhashable seen paths :
  filter (λ p, hashable p = false) (dedup_from seen paths)
  = filter (λ p, hashable p = false) paths.
Proof.
  revert seen. induction paths as [|p rest IH]; intros seen; [done|].
  simpl. destruct (file_hash p) as [h|] eqn:Hp.
  - assert (hashable p ≠ false) as Hf by (unfold hashable; by rewrite Hp).
    rewrite filter_cons_False by exact Hf.
    case_decide; [done|]. by rewrite filter_cons_False by exact Hf.
  - assert (hashable p = false) as Hf by (unfold hashable; by rewrite Hp).
    rewrite !filter_cons_True by exact Hf. by rewrite IH.
Qed.

(** A list whose hashes are distinct and unseen is left as it is. *)
Lemma dedup_from_id seen paths :
  NoDup (omap file_hash paths) →
  (∀ h, h ∈ omap file_hash paths → h ∉ seen) →
  dedup_from seen paths = paths.
Proof.
  revert seen. induction paths as [|p rest IH]; intros seen Hnd Hfresh; [done|].
  simpl in *. destruct (file_hash p) as [h|] eqn:Hp; simpl in *.
  - apply NoDup_cons in Hnd as [Hh Hnd].
    case_decide as Hin.
    + exfalso. apply (Hfresh h); [by left|done].
    + f_equal. apply IH; [done|]. intros h' Hh'.
      apply not_elem_of_union. split.
      * intros ->%elem_of_singleton. done.
      * apply Hfresh. by right.
  - f_equal. by apply IH.
Qed.

Lemma omap_hash_sublist (l1 l2 : list Path) h :
  sublist l1 l2 → h ∈ omap file_hash l1 → h ∈ omap file_hash l2.
Proof.
  intros Hsub (p & Hp & Hh)%list_elem_of_omap.
  apply list_elem_of_omap. exists p. split; [|done].
  by eapply elem_of_sublist.
Qed.

(** C5. [deduplicate_files] keeps exactly the first occurrence of each
    distinct content hash and every file that cannot be hashed, in the
    order of the input: the result is [keep_firsts] of the input, it is a
    subsequence of the input, the hashes of the kept files are pairwise
    distinct and are exactly the hashes met in the input, the files whose
    hashing raises are all retained, and [A; B; A; C] with three distinct
    hashes gives [A; B; C].  (Distinct content is read as distinct digest.) *)
Theorem deduplicate_files_keeps_first_occurrences (paths : list Path) :
  deduplicate_files paths = keep_firsts [] paths
  ∧ sublist (deduplicate_files paths) paths
  ∧ NoDup (omap file_hash (deduplicate_files paths))
  ∧ (∀ h, h ∈ omap file_hash paths
          ↔ h ∈ omap file_hash (deduplicate_files paths))
  ∧ filter (λ p, hashable p = false) (deduplicate_files paths)
    = filter (λ p, hashable p = false) paths
  ∧ (∀ (A B C : Path) (hA hB hC : Digest),
        file_hash A = Some hA → file_hash B = Some hB →
        file_hash C = Some hC → hA ≠ hB → hA ≠ hC → hB ≠ hC →
        deduplicate_files [A; B; A; C] = [A; B; C]).
Proof.
  rewrite deduplicate_files_from. repeat split.
  - apply dedup_from_keep_firsts. intros h. split.
    + by intros ?%not_elem_of_empty.
    + by intros ?%elem_of_nil.
  - apply dedup_from_sublist.
  - apply dedup_from_NoDup.
  - intros Hin. destruct (dedup_from_hashes ∅ paths h Hin) as [Hs|Hk];
      [by apply not_elem_of_empty in Hs|done].
  - apply omap_hash_sublist, dedup_from_sublist.
  - apply dedup_from_unhashable.
  - intros A B C hA hB hC HA HB HC HAB HAC HBC.
    rewrite deduplicate_files_from. simpl. rewrite HA, HB, HC.
    repeat first [rewrite decide_True by seen_solver
                 |rewrite decide_False by seen_solver].
    done.
Qed.

(** C6. With the file contents fixed, deduplicating a deduplicated list
    changes nothing. *)
Theorem deduplicate_files_idempotent (paths : list Path) :
  deduplicate_files (deduplicate_files paths) = deduplicate_files paths.
Proof.
  rewrite !deduplicate_files_from.
  apply dedup_from_id.
  - apply dedup_from_NoDup.
  - intros h _. apply not_elem_of_empty.
Qed.

End Dedup.

(** A small file system for examples: three readable files of distinct
    content and one unreadable path; [demo_digest] stands in for MD5. *)
Definition demo_fs (p : Path) : option (list Byte.byte) :=
  if String.eqb p "a.jpg" then Some [Byte.x01]
  else if String.eqb p "a_copy.jpg" then Some [Byte.x01]
  else if String.eqb p "b.jpg" then Some [Byte.x02]
  else if String.eqb p "c.jpg" then Some [Byte.x03; Byte.x04]
  else None.

Definition demo_digest (content : list Byte.byte) : Digest :=
  String.string_of_list_byte content.

Example deduplicate_files_demo :
  deduplicate_files demo_fs demo_digest
    ["a.jpg"; "missing.jpg"; "b.jpg"; "a_copy.jpg"; "missing.jpg"; "c.jpg"; "a.jpg"]
  = ["a.jpg"; "missing.jpg"; "b.jpg"; "missing.jpg"; "c.jpg"].
Proof. vm_compute. reflexivity. Qed.

Lemma deduplicate_files_keeps_first_occurrences_witness :
  deduplicate_files demo_fs demo_digest ["a.jpg"; "b.jpg"; "a.jpg"; "c.jpg"]
  = ["a.jpg"; "b.jpg"; "c.jpg"].
Proof.
  destruct (deduplicate_files_keeps_first_occurrences demo_fs demo_digest [])
    as (_ & _ & _ & _ & _ & Hex).
  apply (Hex "a.jpg" "b.jpg" "c.jpg"
             (demo_digest [Byte.x01]) (demo_digest [Byte.x02])
             (demo_digest [Byte.x03; Byte.x04]));
    first [reflexivity | discriminate].
Defined.

End FileManager.

(** ** config.py *)

Module Config.

(** The [LOCATION] dictionary. *)
Record location := {
  name : string;
  country : string;
  language : string;
  hashtags : list string;
  keywords : list string;
  local_attractions : list string
}.

Definition LOCATION : location := {|
  name := "Tunis";
  country := "Tunisia";
  language := "en";
  hashtags :=
    ["#Tunis"; "#Tunisia"; "#VisitTunisia"; "#NorthAfrica";
     "#travel"; "#tourism"; "#hiddengem"; "#travelgram";
     "#wanderlust"; "#travelafrica"; "#mediterraneanlife"];
  keywords :=
    ["Tunis travel"; "Tunisia tourism"; "visit Tunis";
     "things to do in Tunis"; "Tunis hidden gems"];
  local_attractions :=
    ["Medina of Tunis"; "Carthage ruins"; "Sidi Bou Said";
     "Bardo Museum"; "Tunis beaches"]
|}.

End Config.

(** ** Python values and exceptions shared by the agents *)

Module Py.

Inductive exn :=
| TypeError
| KeyError
| IndexError
| AttributeError
| OverflowError.

(** The outcome of a call: a returned value or a raised exception. *)
Inductive result (A : Type) :=
| Ok (a : A)
| Raise (e : exn).
Arguments Ok {A} a.
Arguments Raise {A} e.

Definition bind {A B} (r : result A) (k : A -> result B) : result B :=
  match r with
  | Ok a => k a
  | Raise e => Raise e
  end.

(** A loop that builds a list, one element per round; the first exception
    ends it. *)
Fixpoint mapM {A B} (f : A -> result B) (l : list A) : result (list B) :=
  match l with
  | [] => Ok []
  | x :: rest => bind (f x) (λ y, bind (mapM f rest) (λ ys, Ok (y :: ys)))
  end.

(** ** [str] methods on code points below 256

    A [string] holds code points in the range U+0000..U+00FF only; on that
    range [str.lower] maps every character to one character of the range.
    Text with characters beyond U+00FF is outside the model. *)

(** [str.isspace] on one character: TAB..CR, FS..US, SPACE, NEL, NBSP. *)
Definition is_space (c : ascii) : bool :=
  let n := N_of_ascii c in
  ((9 <=? n) && (n <=? 13) || (28 <=? n) && (n <=? 32)
   || (n =? 133) || (n =? 160))%N.

(** [str.lower] on one character: A..Z and the Latin-1 capitals
    U+00C0..U+00DE (without the multiplication sign U+00D7). *)
Definition lower_char (c : ascii) : ascii :=
  let n := N_of_ascii c in
  if ((65 <=? n) && (n <=? 90)
      || (192 <=? n) && (n <=? 222) && negb (n =? 215))%N
  then ascii_of_N (n + 32)
  else c.

Fixpoint lower (s : string) : string :=
  match s with
  | EmptyString => EmptyString
  | String c rest => String (lower_char c) (lower rest)
  end.

(** The slice [s[:n]]. *)
Fixpoint str_take (n : nat) (s : string) : string :=
  match n, s with
  | S n', String c rest => String c (str_take n' rest)
  | _, _ => EmptyString
  end.

(** [s.split()]: the maximal runs of characters that are not white space.
    [word] is the run being read. *)
Fixpoint split_from (word : string) (s : string) : list string :=
  match s with
  | EmptyString => if String.eqb word "" then [] else [word]
  | String c rest =>
      if is_space c
      then (if String.eqb word "" then split_from "" rest
            else word :: split_from "" rest)
      else split_from (word +:+ String c "") rest
  end.

Definition split (s : string) : list string := split_from "" s.

(** ** Numbers

    An [int] is unbounded; a [float] is an IEEE 754 binary64 value. *)

Abbreviation float := PrimFloat.float.

Inductive num :=
| Int (z : Z)
| Float (f : float).

(** The conversion of an [int] operand of [+] whose other operand is a
    [float]: rounded to the nearest double, ties to even; [OverflowError]
    when the integer is beyond the range of a double. *)
Definition float_of_int (z : Z) : result float :=
  match SpecFloat.binary_normalize FloatOps.prec FloatOps.emax z 0 false with
  | SpecFloat.S754_infinity _ => Raise OverflowError
  | sf => Ok (FloatOps.SF2Prim sf)
  end.

(** [a + b] *)
Definition num_add (a b : num) : result num :=
  match a, b with
  | Int x, Int y => Ok (Int (x + y))
  | Int x, Float g => bind (float_of_int x) (λ f, Ok (Float (PrimFloat.add f g)))
  | Float f, Int y => bind (float_of_int y) (λ g, Ok (Float (PrimFloat.add f g)))
  | Float f, Float g => Ok (Float (PrimFloat.add f g))
  end.

(** [z < f] and [f < z] for an [int] and a [float]: Python compares the
    exact values, without converting the integer. *)
Definition int_lt_float (z : Z) (f : float) : bool :=
  match FloatOps.Prim2SF f with
  | SpecFloat.S754_zero _ => (z <? 0)%Z
  | SpecFloat.S754_infinity negative => negb negative
  | SpecFloat.S754_nan => false
  | SpecFloat.S754_finite negative m e =>
      let v := if negative then Z.neg m else Z.pos m in
      if (0 <=? e)%Z then (z <? v * 2 ^ e)%Z else (z * 2 ^ (- e) <? v)%Z
  end.

Definition float_lt_int (f : float) (z : Z) : bool :=
  match FloatOps.Prim2SF f with
  | SpecFloat.S754_zero _ => (0 <? z)%Z
  | SpecFloat.S754_infinity negative => negative
  | SpecFloat.S754_nan => false
  | SpecFloat.S754_finite negative m e =>
      let v := if negative then Z.neg m else Z.pos m in
      if (0 <=? e)%Z then (v * 2 ^ e <? z)%Z else (v <? z * 2 ^ (- e))%Z
  end.

(** [a < b] *)
Definition num_lt (a b : num) : bool :=
  match a, b with
  | Int x, Int y => (x <? y)%Z
  | Int x, Float g => int_lt_float x g
  | Float f, Int y => float_lt_int f y
  | Float f, Float g => PrimFloat.ltb f g
  end.

(** ** Loops that build a list *)

Lemma mapM_ok {A B} (f : A → result B) (g : A → B) (l : list A) :
  Forall (λ x, f x = Ok (g x)) l → mapM f l = Ok (g <$> l).
Proof.
  induction 1 as [|x l Hx _ IH]; csimpl; [done|].
  by rewrite Hx, IH.
Qed.

Lemma mapM_length {A B} (f : A → result B) (l : list A) (l' : list B) :
  mapM f l = Ok l' → Forall2 (λ x y, f x = Ok y) l l'.
Proof.
  revert l'. induction l as [|x l IH]; intros l'; simpl.
  - intros [= <-]. constructor.
  - destruct (f x) as [y|e] eqn:Hy; [|done]. simpl.
    destruct (mapM f l) as [ys|e]; [|done]. simpl.
    intros [= <-]. constructor; [done|by apply IH].
Qed.


End Py.

(** ** agents/trend_agent.py *)

Module TrendAgent.
Import Py.
Local Open Scope Z_scope.

(** The values an entry of a topic dictionary is seen to hold: [None], an
    [int], a [float] or a [str]. *)
Inductive pyval :=
| PyNone
| PyInt (z : Z)
| PyFloat (f : float)
| PyStr (s : string).

(** A topic dictionary: the keys ["topic"], ["score"] and ["source"] may each
    be absent ([None]) or hold any value.  Other keys (["url"],
    ["video_id"]) are never read by the ranking. *)
Record topic_dict := {
  topic : option pyval;
  score : option pyval;
  source : option pyval
}.

(** A value of the [all_trends] dictionary: a list of topic dictionaries, or
    the value [None] (which is not a list). *)
Inductive trends_value :=
| TopicList (items : list topic_dict)
| NoneValue.

(** The [all_trends] dictionary, in insertion order. *)
Definition trends := list (string * trends_value).

(** [trends.get(k)] *)
Fixpoint dict_get (k : string) (d : trends) : option trends_value :=
  match d with
  | [] => None
  | (k', v) :: rest => if String.eqb k k' then Some v else dict_get k rest
  end.

(** [item.get("topic", "")], [item.get("score", 50)],
    [item.get("source", "unknown")] *)
Definition get_topic (item : topic_dict) : pyval := default (PyStr "") (topic item).
Definition get_score (item : topic_dict) : pyval := default (PyInt 50) (score item).
Definition get_source (item : topic_dict) : pyval :=
  default (PyStr "unknown") (source item).

(** The receiver of a [str] method such as [.lower()]: a value that is not
    a [str] has no such attribute. *)
Definition as_str (v : pyval) : result string :=
  match v with
  | PyStr s => Ok s
  | PyNone | PyInt _ | PyFloat _ => Raise AttributeError
  end.

(** [total + value]: only a number can be added to the running total. *)
Definition add_score (total : num) (v : pyval) : result num :=
  match v with
  | PyInt z => num_add total (Int z)
  | PyFloat f => num_add total (Float f)
  | PyNone | PyStr _ => Raise TypeError
  end.

(** The flattening loop: values that are not lists are skipped. *)
Fixpoint flatten (all_trends : trends) : list topic_dict :=
  match all_trends with
  | [] => []
  | (_, TopicList source_list) :: rest => source_list ++ flatten rest
  | (_, NoneValue) :: rest => flatten rest
  end.

(** [topic.lower()[:80]] *)
Definition comparison_key (t : string) : string := str_take 80 (lower t).

(** [word_counter[word] += 1] for the words longer than 4 characters. *)
Definition count_words (word_counter : gmap string Z) (words : list string)
  : gmap string Z :=
  foldl (λ wc word,
           if (4 <? String.length word)%nat
           then <[word := (default 0 (wc !! word) + 1)%Z]> wc
           else wc)
        word_counter words.

(** The first loop over [flat]: accumulates [word_counter] and
    [topic_scores].  [topic.lower()] is evaluated before the score is
    added. *)
Fixpoint score_loop (flat : list topic_dict)
         (word_counter : gmap string Z) (topic_scores : gmap string num)
  : result (gmap string Z * gmap string num) :=
  match flat with
  | [] => Ok (word_counter, topic_scores)
  | item :: rest =>
      let score := get_score item in
      bind (as_str (get_topic item)) (λ topic,
        let key := comparison_key topic in
        bind (add_score (default (Int 0) (topic_scores !! key)) score) (λ total,
          score_loop rest
                     (count_words word_counter (split (lower topic)))
                     (<[key := total]> topic_scores)))
  end.

(** An element of [ranked_items].  Its topic is a [str]: the key has been
    computed from it with [.lower()] before the element is built. *)
Record ranked_item := {
  r_topic : string;
  r_score : num;
  r_source : pyval
}.

Definition sum_Z (l : list Z) : Z := foldr Z.add 0%Z l.

(** The body of the second loop. *)
Definition rank_item (word_counter : gmap string Z) (topic_scores : gmap string num)
           (item : topic_dict) : result ranked_item :=
  bind (as_str (get_topic item)) (λ topic,
    let key := comparison_key topic in
    let base_score := default (Int 50) (topic_scores !! key) in
    let freq_bonus :=
      sum_Z ((λ w, default 0%Z (word_counter !! w))
               <$> filter (λ w, (4 < String.length w)%nat) (split key)) in
    bind (num_add base_score (Int freq_bonus)) (λ final_score,
      Ok {| r_topic := topic;
            r_score := final_score;
            r_source := get_source item |})).

(** [sorted(ranked_items, key=score, reverse=True)]: the stable sort by
    descending score.  [insert_desc x l] puts [x], which comes before every
    element of [l] in the input, in front of the first element whose score
    is not greater.  The scores are compared with [<] only; as long as no
    score is a NaN, [<] orders them totally and every stable sort returns
    this list.  The order in which a list with a NaN score is left depends
    on the merge strategy of the interpreter and is not described here. *)
Fixpoint insert_desc (x : ranked_item) (l : list ranked_item) : list ranked_item :=
  match l with
  | [] => [x]
  | y :: l' =>
      if num_lt (r_score x) (r_score y) then y :: insert_desc x l'
      else x :: y :: l'
  end.

Definition sorted_desc (l : list ranked_item) : list ranked_item :=
  foldr insert_desc [] l.

(** The third loop: deduplication by key, with its [break]. *)
Fixpoint unique_loop (seen_topics : gset string) (unique_ranked : list ranked_item)
         (items : list ranked_item) : list ranked_item :=
  match items with
  | [] => unique_ranked
  | item :: rest =>
      let key := comparison_key (r_topic item) in
      let '(seen_topics', unique_ranked') :=
        if decide (key ∈ seen_topics) then (seen_topics, unique_ranked)
        else ({[key]} ∪ seen_topics, unique_ranked ++ [item]) in
      if (3 <=? length unique_ranked')%nat then unique_ranked'
      else unique_loop seen_topics' unique_ranked' rest
  end.

Definition num_val (n : num) : pyval :=
  match n with
  | Int z => PyInt z
  | Float f => PyFloat f
  end.

(** The dictionary built for an element of the result. *)
Definition to_dict (item : ranked_item) : topic_dict :=
  {| topic := Some (PyStr (r_topic item));
     score := Some (num_val (r_score item));
     source := Some (r_source item) |}.

(** [{"topic": kw, "score": 50}] *)
Definition default_entry (kw : string) : topic_dict :=
  {| topic := Some (PyStr kw); score := Some (PyInt 50); source := None |}.

Section Agent.

(** [self.location] *)
Variable location : Config.location.

Definition analyze_and_rank_trends (all_trends : trends)
  : result (list topic_dict) :=
  let flat := flatten all_trends in
  match flat with
  | [] => Ok (default_entry <$> take 3%nat (Config.keywords location))
  | _ :: _ =>
      bind (score_loop flat ∅ ∅) (λ '(word_counter, topic_scores),
        bind (mapM (rank_item word_counter topic_scores) flat) (λ ranked_items,
          let unique_ranked := unique_loop ∅ [] (sorted_desc ranked_items) in
          (* the log line reads unique_ranked[0] *)
          match unique_ranked with
          | [] => Raise IndexError
          | _ :: _ => Ok (to_dict <$> unique_ranked)
          end))
  end.

(** [ranked[0]["topic"] if ranked else self.location["keywords"][0]] *)
Definition get_best_topic (trends_dict : trends) : result pyval :=
  let ranked :=
    match dict_get "ranked" trends_dict with
    | Some (TopicList l) => l
    | Some NoneValue => []        (* None is falsy, like [] *)
    | None => []
    end in
  match ranked with
  | first :: _ =>
      match topic first with
      | Some t => Ok t
      | None => Raise KeyError
      end
  | [] =>
      match Config.keywords location with
      | kw :: _ => Ok (PyStr kw)
      | [] => Raise IndexError
      end
  end.

End Agent.

(** *** The specification's reading of the ranking *)

(** The topic of a candidate as text (the empty text when there is none). *)
Definition topic_text (c : topic_dict) : string :=
  match topic c with
  | Some (PyStr s) => s
  | _ => ""
  end.

(** The specification's scores are whole numbers; a missing or empty score
    counts as 50 (and so does any score that is not a whole number). *)
Definition raw_score (c : topic_dict) : Z :=
  match score c with
  | Some (PyInt z) => z
  | Some PyNone | Some (PyFloat _) | Some (PyStr _) | None => 50%Z
  end.

(** The words longer than 4 characters of a (lower-cased) topic. *)
Definition long_words (t : string) : list string :=
  filter (λ w, (4 < String.length w)%nat) (split (lower t)).

(** Sum of the raw scores of all candidates sharing the key [k]. *)
Definition key_total (flat : list topic_dict) (k : string) : Z :=
  sum_Z (raw_score <$> filter (λ c, comparison_key (topic_text c) = k) flat).

(** Number of occurrences of [w] among the words of all candidates' topics. *)
Definition occurrences (flat : list topic_dict) (w : string) : Z :=
  Z.of_nat (length (filter (λ w', w' = w) (flat ≫= λ c, long_words (topic_text c)))).

Definition spec_final_score (flat : list topic_dict) (c : topic_dict) : Z :=
  (key_total flat (comparison_key (topic_text c))
   + sum_Z (occurrences flat <$> long_words (topic_text c)))%Z.

Definition spec_item (flat : list topic_dict) (c : topic_dict) : ranked_item :=
  {| r_topic := topic_text c;
     r_score := Int (spec_final_score flat c);
     r_source := get_source c |}.

(** Keep the first occurrence of each comparison key. *)
Fixpoint first_by_key (seen : list string) (items : list ranked_item)
  : list ranked_item :=
  match items with
  | [] => []
  | item :: rest =>
      let key := comparison_key (r_topic item) in
      if decide (key ∈ seen) then first_by_key seen rest
      else item :: first_by_key (key :: seen) rest
  end.

Definition spec_rank (flat : list topic_dict) : list topic_dict :=
  to_dict <$> take 3%nat (first_by_key [] (sorted_desc (spec_item flat <$> flat))).

(** The whole-number score of a ranked item, if it is one. *)
Definition int_score (x : ranked_item) : option Z :=
  match r_score x with
  | Int z => Some z
  | Float _ => None
  end.

(** No item of greater score stands behind [a]: [a] may come before [b]. *)
Definition score_ge (a b : ranked_item) : Prop :=
  num_lt (r_score a) (r_score b) = false.

(** [sorted] is [items] in descending order of score as a stable sort
    leaves them: the same items, none before an item of greater score, and
    the items of each score in the order they had. *)
Definition stable_sorted_desc (items sorted : list ranked_item) : Prop :=
  sorted ≡ₚ items
  ∧ StronglySorted score_ge sorted
  ∧ ∀ s : Z, filter (λ x, int_score x = Some s) sorted
             = filter (λ x, int_score x = Some s) items.

(** Every score that is present is an [int]. *)
Definition int_scored (c : topic_dict) : Prop :=
  match score c with
  | Some (PyInt _) | None => True
  | Some PyNone | Some (PyFloat _) | Some (PyStr _) => False
  end.

(** Every topic that is present is a [str]. *)
Definition str_topic (c : topic_dict) : Prop :=
  match topic c with
  | Some (PyStr _) | None => True
  | Some PyNone | Some (PyInt _) | Some (PyFloat _) => False
  end.

(** The candidate with the score 50 written into it when it has no
    ["score"] entry. *)
Definition with_default_score (c : topic_dict) : topic_dict :=
  match score c with
  | None => {| topic := topic c; score := Some (PyInt 50); source := source c |}
  | Some _ => c
  end.

(** An absent or empty (null, empty text) ["score"] is replaced by 50. *)
Definition with_empty_score_as_50 (c : topic_dict) : topic_dict :=
  {| topic := topic c;
     score := match score c with
              | None | Some PyNone | Some (PyStr "") => Some (PyInt 50)
              | Some v => Some v
              end;
     source := source c |}.

Definition map_items (f : topic_dict -> topic_dict) (all_trends : trends) : trends :=
  (λ '(k, v), (k, match v with
                  | TopicList l => TopicList (f <$> l)
                  | NoneValue => NoneValue
                  end)) <$> all_trends.

(** *** Strings *)

Lemma str_take_all n s : (String.length s <= n)%nat → str_take n s = s.
Proof.
  revert n. induction s as [|c s IH]; intros [|n] Hn; simpl in *; try done.
  - lia.
  - f_equal. apply IH. lia.
Qed.

(** A topic whose lower-cased text has at most 80 characters is its own
    key. *)
Lemma comparison_key_short t :
  (String.length (lower t) <= 80)%nat → comparison_key t = lower t.
Proof. apply str_take_all. Qed.

(** *** Sums *)

Lemma sum_Z_app l1 l2 : sum_Z (l1 ++ l2) = sum_Z l1 + sum_Z l2.
Proof. induction l1 as [|x l1 IH]; simpl; lia. Qed.

Lemma sum_Z_fmap_ext {A} (f g : A → Z) (l : list A) :
  Forall (λ x, f x = g x) l → sum_Z (f <$> l) = sum_Z (g <$> l).
Proof.
  induction 1 as [|x l Hx _ IH]; csimpl; [done|].
  unfold sum_Z in *. simpl. congruence.
Qed.

(** *** The word counter *)

Definition count_in (w : string) (words : list string) : Z :=
  Z.of_nat (length (filter (λ w', w' = w) words)).

Lemma count_in_app w l1 l2 : count_in w (l1 ++ l2) = count_in w l1 + count_in w l2.
Proof. unfold count_in. rewrite filter_app, length_app. lia. Qed.

Lemma count_words_lookup wc words w :
  default 0 (count_words wc words !! w)
  = default 0 (wc !! w)
    + count_in w (filter (λ w', (4 < String.length w')%nat) words).
Proof.
  unfold count_words. revert wc.
  induction words as [|x words IH]; intros wc; simpl.
  - unfold count_in. simpl. lia.
  - rewrite IH. destruct (Nat.ltb_spec 4 (String.length x)) as [Hx|Hx].
    + rewrite filter_cons_True by done.
      change (x :: ?l) with ([x] ++ l). rewrite count_in_app.
      unfold count_in at 2. destruct (decide (x = w)) as [->|Hne].
      * rewrite lookup_insert_eq, filter_cons_True by done. simpl. lia.
      * rewrite lookup_insert_ne, filter_cons_False by done. simpl. lia.
    + rewrite filter_cons_False by lia. done.
Qed.

Lemma occurrences_cons c flat w :
  occurrences (c :: flat) w
  = count_in w (long_words (topic_text c)) + occurrences flat w.
Proof. unfold occurrences. simpl. apply count_in_app. Qed.

Lemma key_total_cons c flat k :
  key_total (c :: flat) k
  = (if decide (comparison_key (topic_text c) = k) then raw_score c else 0)
    + key_total flat k.
Proof.
  unfold key_total. case_decide.
  - by rewrite filter_cons_True.
  - by rewrite filter_cons_False.
Qed.

(** *** Candidates with a text topic and a whole-number score *)

Lemma as_str_topic c : str_topic c → as_str (get_topic c) = Ok (topic_text c).
Proof.
  unfold str_topic, get_topic, topic_text.
  destruct (topic c) as [[| | |]|]; simpl; done.
Qed.



Lemma add_score_int (total : Z) c :
  int_scored c → add_score (Int total) (get_score c) = Ok (Int (total + raw_score c)).
Proof.
  unfold int_scored, get_score, raw_score.
  destruct (score c) as [[| | |]|]; simpl; done.
Qed.

Lemma lookup_Int_default (d : Z) (ts : gmap string Z) k :
  default (Int d) ((Int <$> ts) !! k) = Int (default d (ts !! k)).
Proof. rewrite lookup_fmap. by destruct (ts !! k). Qed.

(** *** The first loop *)

Lemma score_loop_ok flat : ∀ wc (ts : gmap string Z),
  Forall str_topic flat →
  Forall int_scored flat →
  ∃ wc' ts',
    score_loop flat wc (Int <$> ts) = Ok (wc', Int <$> ts')
    ∧ (∀ k, default 0 (ts' !! k) = default 0 (ts !! k) + key_total flat k)
    ∧ (∀ c, c ∈ flat → is_Some (ts' !! comparison_key (topic_text c)))
    ∧ (∀ k, is_Some (ts !! k) → is_Some (ts' !! k))
    ∧ (∀ w, (4 < String.length w)%nat →
            default 0 (wc' !! w) = default 0 (wc !! w) + occurrences flat w).
Proof.
  induction flat as [|c flat IH]; intros wc ts Hstr Hflat.
  - exists wc, ts. simpl. unfold key_total, occurrences. simpl.
    repeat split; auto with lia.
    by intros c ?%elem_of_nil.
  - apply Forall_cons in Hflat as [Hc Hflat].
    apply Forall_cons in Hstr as [Hs Hstr].
    cbn [score_loop]. rewrite as_str_topic by done. cbn [bind].
    rewrite lookup_Int_default, add_score_int by done. cbn [bind].
    rewrite <- fmap_insert.
    destruct (IH (count_words wc (split (lower (topic_text c))))
                 (<[comparison_key (topic_text c) :=
                      default 0 (ts !! comparison_key (topic_text c)) + raw_score c]> ts)
                 Hstr Hflat)
      as (wc' & ts' & -> & Hts & Hin & Hmono & Hwc).
    exists wc', ts'. split; [done|]. repeat split.
    + intros k. rewrite Hts, key_total_cons. case_decide as Hk.
      * subst k. rewrite lookup_insert_eq. simpl. lia.
      * rewrite lookup_insert_ne by done. lia.
    + intros c' [->|Hc']%elem_of_cons; [|by apply Hin].
      apply Hmono. rewrite lookup_insert_eq. by eexists.
    + intros k Hk. apply Hmono.
      destruct (decide (comparison_key (topic_text c) = k)) as [->|Hne].
      * rewrite lookup_insert_eq. by eexists.
      * by rewrite lookup_insert_ne.
    + intros w Hw. rewrite Hwc, count_words_lookup, occurrences_cons by done.
      unfold long_words. lia.
Qed.

(** *** The second loop *)

(** With whole-number totals the final score is a whole number. *)
Lemma rank_item_int wc (ts : gmap string Z) c :
  str_topic c →
  rank_item wc (Int <$> ts) c
  = Ok {| r_topic := topic_text c;
          r_score :=
            Int (default 50 (ts !! comparison_key (topic_text c))
                 + sum_Z ((λ w, default 0 (wc !! w))
                            <$> filter (λ w, (4 < String.length w)%nat)
                                       (split (comparison_key (topic_text c)))));
          r_source := get_source c |}.
Proof.
  intros Hs. unfold rank_item. rewrite as_str_topic by done. cbn [bind].
  by rewrite lookup_Int_default.
Qed.

Lemma rank_item_spec flat wc (ts : gmap string Z) c :
  (∀ k, default 0 (ts !! k) = key_total flat k) →
  is_Some (ts !! comparison_key (topic_text c)) →
  (∀ w, (4 < String.length w)%nat → default 0 (wc !! w) = occurrences flat w) →
  str_topic c →
  (String.length (lower (topic_text c)) <= 80)%nat →
  rank_item wc (Int <$> ts) c = Ok (spec_item flat c).
Proof.
  intros Hts [v Hv] Hwc Hs Hlen.
  rewrite rank_item_int by done.
  unfold spec_item, spec_final_score. do 4 f_equal.
  - rewrite <- Hts, Hv. done.
  - rewrite (comparison_key_short _ Hlen). fold (long_words (topic_text c)).
    apply sum_Z_fmap_ext, Forall_forall.
    intros w [Hw _]%list_elem_of_filter. by apply Hwc.
Qed.

(** *** The sort *)

Lemma insert_desc_perm x l : insert_desc x l ≡ₚ x :: l.
Proof.
  induction l as [|y l IH]; simpl; [done|].
  destruct (num_lt (r_score x) (r_score y)); [|done].
  rewrite IH. apply Permutation_swap.
Qed.

Lemma sorted_desc_perm l : sorted_desc l ≡ₚ l.
Proof.
  induction l as [|x l IH]; simpl; [done|].
  by rewrite insert_desc_perm, IH.
Qed.

Lemma sorted_desc_nil l : sorted_desc l = [] → l = [].
Proof.
  intros Hl. apply Permutation_nil_r. rewrite <- Hl. symmetry.
  apply sorted_desc_perm.
Qed.

(** Items whose score is a whole number: on them [score_ge] is the order
    of the integers. *)
Definition int_item (x : ranked_item) : Prop := is_Some (int_score x).

Lemma int_item_score x : int_item x → ∃ z, r_score x = Int z ∧ int_score x = Some z.
Proof.
  unfold int_item, int_score. destruct (r_score x) as [z|f]; [eauto|].
  by intros [? ?].
Qed.

Lemma score_ge_int a b za zb :
  r_score a = Int za → r_score b = Int zb → score_ge a b ↔ zb <= za.
Proof.
  intros Ha Hb. unfold score_ge. rewrite Ha, Hb. simpl.
  destruct (Z.ltb_spec za zb); split; intros; try done; lia.
Qed.

Lemma insert_desc_int x l :
  int_item x → Forall int_item l → Forall int_item (insert_desc x l).
Proof.
  intros Hx Hl. apply Forall_forall. intros y Hy.
  rewrite insert_desc_perm in Hy. apply elem_of_cons in Hy as [->|Hy]; [done|].
  rewrite Forall_forall in Hl. by apply Hl.
Qed.

Lemma sorted_desc_int l : Forall int_item l → Forall int_item (sorted_desc l).
Proof.
  intros Hl. apply Forall_forall. intros y Hy.
  rewrite sorted_desc_perm in Hy. rewrite Forall_forall in Hl. by apply Hl.
Qed.

Lemma insert_desc_sorted x l :
  int_item x → Forall int_item l →
  StronglySorted score_ge l → StronglySorted score_ge (insert_desc x l).
Proof.
  intros Hx Hl Hs. induction Hs as [|y l Hs IH Hy]; simpl.
  - repeat constructor.
  - apply Forall_cons in Hl as [Hyi Hl].
    destruct (int_item_score x Hx) as (zx & Hzx & _).
    destruct (int_item_score y Hyi) as (zy & Hzy & _).
    rewrite Hzx, Hzy. simpl.
    destruct (Z.ltb_spec zx zy) as [Hlt|Hle].
    + constructor; [by apply IH|].
      rewrite insert_desc_perm. constructor; [|done].
      apply (score_ge_int y x zy zx); [done|done|lia].
    + constructor; [by constructor|].
      constructor; [apply (score_ge_int x y zx zy); [done|done|lia]|].
      rewrite Forall_forall in Hy, Hl. apply Forall_forall. intros w Hw.
      destruct (int_item_score w (Hl w Hw)) as (zw & Hzw & _).
      apply (score_ge_int x w zx zw); [done|done|].
      apply (score_ge_int y w zy zw) in Hy; [lia|done|done|done].
Qed.

Lemma sorted_desc_sorted l :
  Forall int_item l → StronglySorted score_ge (sorted_desc l).
Proof.
  induction 1 as [|x l Hx Hl IH]; simpl; [constructor|].
  apply insert_desc_sorted; [done|by apply sorted_desc_int|done].
Qed.

(** Stability: the elements of one score keep the order of the input. *)
Lemma insert_desc_stable x l s :
  int_item x → Forall int_item l →
  StronglySorted score_ge l →
  filter (λ y, int_score y = Some s) (insert_desc x l)
  = filter (λ y, int_score y = Some s) (x :: l).
Proof.
  intros Hx Hl Hs. induction Hs as [|y l Hs IH Hy]; simpl; [done|].
  apply Forall_cons in Hl as [Hyi Hl].
  destruct (int_item_score x Hx) as (zx & Hzx & Hix).
  destruct (int_item_score y Hyi) as (zy & Hzy & Hiy).
  rewrite Hzx, Hzy. simpl.
  destruct (Z.ltb_spec zx zy) as [Hlt|Hle]; [|done].
  rewrite (filter_cons _ y), IH, !filter_cons by done.
  rewrite Hix, Hiy.
  repeat case_decide; try done; simplify_eq; lia.
Qed.

Lemma sorted_desc_stable l s :
  Forall int_item l →
  filter (λ y, int_score y = Some s) (sorted_desc l)
  = filter (λ y, int_score y = Some s) l.
Proof.
  induction 1 as [|x l Hx Hl IH]; simpl; [done|].
  rewrite insert_desc_stable;
    [|done|by apply sorted_desc_int|by apply sorted_desc_sorted].
  rewrite !filter_cons, IH. done.
Qed.

Lemma sorted_desc_stable_sort l :
  Forall int_item l → stable_sorted_desc l (sorted_desc l).
Proof.
  intros Hl. split; [apply sorted_desc_perm|]. split.
  - by apply sorted_desc_sorted.
  - intros s. by apply sorted_desc_stable.
Qed.

(** A list has one stable sort only. *)
Lemma stable_sorted_unique s1 : ∀ s2,
  Forall int_item s1 →
  s1 ≡ₚ s2 →
  StronglySorted score_ge s1 → StronglySorted score_ge s2 →
  (∀ s, filter (λ x, int_score x = Some s) s1
        = filter (λ x, int_score x = Some s) s2) →
  s1 = s2.
Proof.
  induction s1 as [|h1 t1 IH]; intros s2 Hint Hperm Hs1 Hs2 Hfilter.
  - by apply Permutation_nil_l in Hperm.
  - destruct s2 as [|h2 t2].
    { by apply Permutation_nil_r in Hperm. }
    apply Forall_cons in Hint as [Hi1 Hint].
    assert (int_item h2) as Hi2.
    { assert (h2 ∈ h1 :: t1) as [->|Hin]%elem_of_cons
        by (rewrite Hperm; by left); [done|].
      rewrite Forall_forall in Hint. by apply Hint. }
    destruct (int_item_score h1 Hi1) as (z1 & Hz1 & Hs1z).
    destruct (int_item_score h2 Hi2) as (z2 & Hz2 & Hs2z).
    apply StronglySorted_inv in Hs1 as [Hs1 Hh1].
    apply StronglySorted_inv in Hs2 as [Hs2 Hh2].
    assert (z2 <= z1) as Hle1.
    { assert (h2 ∈ h1 :: t1) as [Heq|Hin]%elem_of_cons
        by (rewrite Hperm; by left).
      - subst h2. assert (z2 = z1) by congruence. lia.
      - rewrite Forall_forall in Hh1.
        by apply (score_ge_int h1 h2 z1 z2 Hz1 Hz2), Hh1. }
    assert (z1 <= z2) as Hle2.
    { assert (h1 ∈ h2 :: t2) as [Heq|Hin]%elem_of_cons
        by (rewrite <- Hperm; by left).
      - subst h2. assert (z2 = z1) by congruence. lia.
      - rewrite Forall_forall in Hh2.
        by apply (score_ge_int h2 h1 z2 z1 Hz2 Hz1), Hh2. }
    assert (z1 = z2) as -> by lia.
    assert (h1 = h2) as <-.
    { specialize (Hfilter z2). rewrite !filter_cons in Hfilter.
      rewrite !decide_True in Hfilter by done. congruence. }
    f_equal. apply IH; try done.
    + by apply Permutation_cons_inv in Hperm.
    + intros s. specialize (Hfilter s). rewrite !filter_cons in Hfilter.
      case_decide; congruence.
Qed.

(** The head of the sorted list has the greatest score. *)
Lemma sorted_desc_head l h rest :
  Forall int_item l →
  sorted_desc l = h :: rest → ∀ x, x ∈ l → score_ge h x.
Proof.
  intros Hl Hs x Hx.
  pose proof (sorted_desc_sorted l Hl) as Hsorted. rewrite Hs in Hsorted.
  apply StronglySorted_inv in Hsorted as [_ Hh].
  assert (x ∈ h :: rest) as [->|Hin]%elem_of_cons.
  { rewrite <- Hs. by rewrite sorted_desc_perm. }
  - assert (int_item h) as Hi.
    { rewrite Forall_forall in Hl. apply Hl.
      rewrite <- (sorted_desc_perm l), Hs. by left. }
    destruct (int_item_score h Hi) as (z & Hz & _).
    apply (score_ge_int h h z z); [done|done|lia].
  - rewrite Forall_forall in Hh. by apply Hh.
Qed.

(** *** The third loop *)

#[local] Arguments Nat.leb : simpl never.

Lemma unique_loop_spec items : ∀ (seen : gset string) (seenl : list string) unique,
  (∀ k, k ∈ seen ↔ k ∈ seenl) →
  (length unique < 3)%nat →
  unique_loop seen unique items
  = take 3 (unique ++ first_by_key seenl items).
Proof.
  induction items as [|item rest IH]; intros seen seenl unique Hseen Hlen; simpl.
  - rewrite app_nil_r, take_ge; [done|lia].
  - destruct (decide (comparison_key (r_topic item) ∈ seen)) as [Hin|Hin].
    + rewrite decide_True by (by apply Hseen).
      destruct (Nat.leb_spec 3 (length unique)); [lia|]. by apply IH.
    + rewrite decide_False by (by rewrite <- Hseen).
      destruct (Nat.leb_spec 3 (length (unique ++ [item]))) as [Hge|Hlt].
      * rewrite (cons_middle item unique (first_by_key _ rest)), app_assoc.
        rewrite take_app_le by lia.
        rewrite take_ge; [done|]. rewrite length_app in *. simpl in *. lia.
      * rewrite (cons_middle item unique (first_by_key _ rest)), app_assoc.
        apply IH; [|done].
        intros k. rewrite elem_of_union, elem_of_singleton, elem_of_cons, Hseen.
        done.
Qed.

Lemma first_by_key_cons_ne seen item rest :
  comparison_key (r_topic item) ∉ seen →
  first_by_key seen (item :: rest)
  = item :: first_by_key (comparison_key (r_topic item) :: seen) rest.
Proof. intros Hk. simpl. by rewrite decide_False. Qed.

Lemma unique_loop_nonempty items :
  items ≠ [] → unique_loop ∅ [] items ≠ [].
Proof.
  intros Hne. rewrite (unique_loop_spec items ∅ []); [|set_solver|simpl; lia].
  destruct items as [|item rest]; [done|].
  rewrite app_nil_l, first_by_key_cons_ne by apply not_elem_of_nil. done.
Qed.

(** The ranking after its first loop: what is returned when the second loop
    leaves [ranked_items]. *)
Lemma ranking_of_items (ranked_items : list ranked_item) :
  ranked_items ≠ [] →
  match unique_loop ∅ [] (sorted_desc ranked_items) with
  | [] => Raise IndexError
  | _ :: _ => Ok (to_dict <$> unique_loop ∅ [] (sorted_desc ranked_items))
  end
  = Ok (to_dict <$> take 3 (first_by_key [] (sorted_desc ranked_items))).
Proof.
  intros Hne.
  destruct (unique_loop ∅ [] _) as [|u us] eqn:Hu.
  - apply unique_loop_nonempty in Hu; [done|].
    intros Hnil%sorted_desc_nil. done.
  - rewrite <- Hu.
    rewrite (unique_loop_spec _ ∅ []); [done|set_solver|simpl; lia].
Qed.

(** *** Example inputs *)

(** The two-source scenario of the specification. *)
Definition tunis_beaches_input : trends :=
  [("google", TopicList [{| topic := Some (PyStr "Tunis beaches");
                            score := Some (PyInt 80); source := None |}]);
   ("reddit", TopicList [{| topic := Some (PyStr "Tunis beaches are amazing");
                            score := Some (PyInt 60); source := None |}])].

(** A news title of 102 characters: its words "summer", "holidays" and
    "season" lie beyond the 80th character. *)
Definition long_title : string :=
  "ten hidden beaches and quiet medina streets you should visit around tunis this summer holidays season".

Definition long_title_input : trends :=
  [("reddit", TopicList [{| topic := Some (PyStr "Tunisia by car");
                            score := Some (PyInt 75);
                            source := Some (PyStr "reddit/travel") |}]);
   ("news", TopicList [{| topic := Some (PyStr long_title);
                          score := Some (PyInt 65);
                          source := Some (PyStr "newsapi") |}])].

(** A candidate whose ["score"] entry is present and null. *)
Definition null_score_input : trends :=
  [("google", TopicList [{| topic := Some (PyStr "Tunis beaches");
                            score := Some PyNone;
                            source := Some (PyStr "google_rising") |}])].

(** A candidate without a ["score"] entry. *)
Definition missing_score_input : trends :=
  [("google", TopicList [{| topic := Some (PyStr "Tunis beaches");
                            score := None;
                            source := Some (PyStr "google_rising") |}])].

Section Ranking.

Variable location : Config.location.

Lemma flatten_map_items f all_trends :
  flatten (map_items f all_trends) = f <$> flatten all_trends.
Proof.
  induction all_trends as [|[k [l|]] rest IH]; csimpl; [done| |done].
  by rewrite fmap_app, <- IH.
Qed.

(** Writing the default into a candidate changes nothing the loops read. *)
Lemma with_default_score_reads c :
  get_topic (with_default_score c) = get_topic c
  ∧ get_score (with_default_score c) = get_score c
  ∧ get_source (with_default_score c) = get_source c.
Proof. unfold with_default_score. destruct c as [t [s|] src]; done. Qed.

Lemma score_loop_default_score flat : ∀ wc ts,
  score_loop (with_default_score <$> flat) wc ts = score_loop flat wc ts.
Proof.
  induction flat as [|c flat IH]; intros wc ts; [done|].
  rewrite fmap_cons. cbn [score_loop].
  destruct (with_default_score_reads c) as (-> & -> & _).
  destruct (as_str (get_topic c)) as [t|e]; [|done]. cbn [bind].
  destruct (add_score _ (get_score c)); [|done]. cbn [bind]. apply IH.
Qed.

Lemma rank_item_default_score wc ts c :
  rank_item wc ts (with_default_score c) = rank_item wc ts c.
Proof.
  unfold rank_item.
  by destruct (with_default_score_reads c) as (-> & _ & ->).
Qed.

Lemma mapM_rank_item_default_score wc ts flat :
  mapM (rank_item wc ts) (with_default_score <$> flat)
  = mapM (rank_item wc ts) flat.
Proof.
  induction flat as [|c flat IH]; [done|].
  rewrite fmap_cons. cbn [mapM]. by rewrite rank_item_default_score, IH.
Qed.

(** The second loop on candidates with text topics and whole-number
    totals. *)
Lemma mapM_rank_item_int wc (ts : gmap string Z) flat :
  Forall str_topic flat →
  ∃ ranked_items,
    mapM (rank_item wc (Int <$> ts)) flat = Ok ranked_items
    ∧ length ranked_items = length flat
    ∧ Forall int_item ranked_items.
Proof.
  induction 1 as [|c flat Hc _ (items & IH & Hlen & Hint)].
  - exists []. by repeat split.
  - cbn [mapM]. rewrite rank_item_int, IH by done. cbn [bind].
    eexists. split; [done|]. split; [simpl; by rewrite Hlen|].
    constructor; [by eexists|done].
Qed.

(** With text topics and integer scores the ranking returns a list. *)
Lemma analyze_and_rank_trends_returns all_trends :
  Forall str_topic (flatten all_trends) →
  Forall int_scored (flatten all_trends) →
  ∃ ranked, analyze_and_rank_trends location all_trends = Ok ranked.
Proof.
  intros Hstr Hint. unfold analyze_and_rank_trends.
  destruct (flatten all_trends) as [|c flat] eqn:Hflat; [by eexists|].
  destruct (score_loop_ok (c :: flat) ∅ ∅ Hstr Hint) as (wc & ts & Hloop & _).
  rewrite fmap_empty in Hloop. rewrite Hloop. cbn [bind].
  destruct (mapM_rank_item_int wc ts (c :: flat) Hstr) as (items & -> & Hlen & _).
  cbn [bind]. rewrite ranking_of_items; [by eexists|].
  by destruct items.
Qed.

(** On candidates with integer scores whose lower-cased topics have at most
    80 characters, the ranking is the one described: every candidate gets
    the sum of the scores of the candidates sharing its key plus, for each
    of its topic's words longer than 4 characters, the number of times the
    word occurs in all topics; the candidates are put in descending order
    of that score by a stable sort (there is one such order only); the
    first candidate of each key is kept, and the first three of those are
    returned. *)
Theorem analyze_and_rank_trends_short_topics all_trends :
  flatten all_trends ≠ [] →
  Forall str_topic (flatten all_trends) →
  Forall int_scored (flatten all_trends) →
  Forall (λ c, (String.length (lower (topic_text c)) <= 80)%nat)
         (flatten all_trends) →
  ∃ sorted,
    stable_sorted_desc (spec_item (flatten all_trends) <$> flatten all_trends)
                       sorted
    ∧ (∀ sorted',
         stable_sorted_desc
           (spec_item (flatten all_trends) <$> flatten all_trends) sorted' →
         sorted' = sorted)
    ∧ analyze_and_rank_trends location all_trends
      = Ok (to_dict <$> take 3 (first_by_key [] sorted)).
Proof.
  intros Hne Hstr Hint Hlen. unfold analyze_and_rank_trends.
  destruct (flatten all_trends) as [|c flat] eqn:Hflat; [done|].
  set (items := spec_item (c :: flat) <$> c :: flat).
  assert (Forall int_item items) as Hitems.
  { apply Forall_fmap, Forall_forall. intros x _. by eexists. }
  exists (sorted_desc items). split; [by apply sorted_desc_stable_sort|].
  split.
  { intros sorted' (Hperm & Hsorted & Hstable).
    apply stable_sorted_unique; try done.
    - apply Forall_forall. intros x Hx. rewrite Hperm in Hx.
      rewrite Forall_forall in Hitems. by apply Hitems.
    - by rewrite Hperm, sorted_desc_perm.
    - by apply sorted_desc_sorted.
    - intros s. by rewrite Hstable, sorted_desc_stable. }
  destruct (score_loop_ok (c :: flat) ∅ ∅ Hstr Hint)
    as (wc & ts & Hloop & Hts & Hin & _ & Hwc).
  rewrite fmap_empty in Hloop. rewrite Hloop. cbn [bind].
  rewrite (mapM_ok _ (spec_item (c :: flat))).
  - cbn [bind]. fold items. apply ranking_of_items. done.
  - apply Forall_forall. intros x Hx.
    rewrite Forall_forall in Hstr, Hlen.
    apply rank_item_spec; [| | |by apply Hstr|by apply Hlen].
    + intros k. rewrite Hts, lookup_empty. simpl. lia.
    + by apply Hin.
    + intros w Hw. rewrite Hwc, lookup_empty by done. simpl. lia.
Qed.

End Ranking.

(** C1. The final score is meant to add, for every long word of the
    candidate's own topic, that word's count over all topics.  On a title
    longer than 80 characters the code takes the words of the truncated key
    instead: for [long_title_input] it returns the reddit topic first
    (76 against 74), where the ranking described puts the news title first
    (77 against 76). *)
Theorem analyze_and_rank_trends_long_title :
  analyze_and_rank_trends Config.LOCATION long_title_input
  = Ok [ {| topic := Some (PyStr "Tunisia by car"); score := Some (PyInt 76);
            source := Some (PyStr "reddit/travel") |};
         {| topic := Some (PyStr long_title); score := Some (PyInt 74);
            source := Some (PyStr "newsapi") |} ]
  ∧ spec_rank (flatten long_title_input)
    = [ {| topic := Some (PyStr long_title); score := Some (PyInt 77);
           source := Some (PyStr "newsapi") |};
        {| topic := Some (PyStr "Tunisia by car"); score := Some (PyInt 76);
           source := Some (PyStr "reddit/travel") |} ].
Proof. split; vm_compute; reflexivity. Qed.

(** C2. When no source contributes a candidate, the ranking does not raise
    and returns one entry for each of the first three configured keywords,
    in their order: the keyword as topic, the score 50 and nothing else. *)
Theorem analyze_and_rank_trends_empty (location : Config.location)
        (all_trends : trends) :
  flatten all_trends = [] →
  ∃ ranked,
    analyze_and_rank_trends location all_trends = Ok ranked
    ∧ ranked = (λ kw : string, {| topic := Some (PyStr kw);
                                  score := Some (PyInt 50);
                                  source := None |})
               <$> take 3 (Config.keywords location)
    ∧ (length ranked <= 3)%nat
    ∧ length ranked = Nat.min 3 (length (Config.keywords location)).
Proof.
  intros Hflat. unfold analyze_and_rank_trends. rewrite Hflat.
  eexists. split; [done|]. split; [done|].
  rewrite length_fmap, length_take. lia.
Qed.

Lemma analyze_and_rank_trends_empty_witness :
  ∃ ranked,
    analyze_and_rank_trends Config.LOCATION
      [("google", TopicList []); ("reddit", NoneValue); ("news", TopicList [])]
    = Ok ranked
    ∧ ranked = [ {| topic := Some (PyStr "Tunis travel"); score := Some (PyInt 50);
                    source := None |};
                 {| topic := Some (PyStr "Tunisia tourism"); score := Some (PyInt 50);
                    source := None |};
                 {| topic := Some (PyStr "visit Tunis"); score := Some (PyInt 50);
                    source := None |} ]
    ∧ (length ranked <= 3)%nat
    ∧ length ranked = Nat.min 3 (length (Config.keywords Config.LOCATION)).
Proof.
  apply (analyze_and_rank_trends_empty Config.LOCATION
           [("google", TopicList []); ("reddit", NoneValue);
            ("news", TopicList [])]).
  reflexivity.
Defined.

(** C3. For google = ["Tunis beaches", 80] and reddit = ["Tunis beaches are
    amazing", 60] the ranking puts "Tunis beaches" (84) first, ahead of the
    other topic (65). *)
Theorem analyze_and_rank_trends_tunis_beaches :
  analyze_and_rank_trends Config.LOCATION tunis_beaches_input
  = Ok [ {| topic := Some (PyStr "Tunis beaches"); score := Some (PyInt 84);
            source := Some (PyStr "unknown") |};
         {| topic := Some (PyStr "Tunis beaches are amazing"); score := Some (PyInt 65);
            source := Some (PyStr "unknown") |} ].
Proof. vm_compute. reflexivity. Qed.

(** A null score is not replaced by 50: adding it to the total raises. *)
Lemma analyze_and_rank_trends_null_score :
  analyze_and_rank_trends Config.LOCATION null_score_input = Raise TypeError
  ∧ analyze_and_rank_trends Config.LOCATION
      (map_items with_empty_score_as_50 null_score_input)
    = Ok [ {| topic := Some (PyStr "Tunis beaches"); score := Some (PyInt 52);
              source := Some (PyStr "google_rising") |} ].
Proof. split; vm_compute; reflexivity. Qed.

(** C4 (amended). A candidate without a ["score"] entry is ranked exactly as
    the same candidate with the score 50: writing 50 into every candidate
    that lacks a score changes neither the result nor the exception of the
    ranking.  When moreover every score that is present is an integer and
    every topic that is present is a text, the ranking returns without
    raising. *)
Theorem analyze_and_rank_trends_missing_score (location : Config.location)
        (all_trends : trends) :
  analyze_and_rank_trends location
    (map_items (λ c, match score c with
                     | None => {| topic := topic c; score := Some (PyInt 50);
                                  source := source c |}
                     | Some _ => c
                     end) all_trends)
  = analyze_and_rank_trends location all_trends
  ∧ (Forall str_topic (flatten all_trends) →
     Forall int_scored (flatten all_trends) →
     ∃ ranked, analyze_and_rank_trends location all_trends = Ok ranked).
Proof.
  split; [|apply analyze_and_rank_trends_returns].
  change (map_items _ all_trends) with (map_items with_default_score all_trends).
  unfold analyze_and_rank_trends. rewrite flatten_map_items.
  destruct (flatten all_trends) as [|c flat]; [done|].
  rewrite fmap_cons. cbv iota. rewrite <- fmap_cons, score_loop_default_score.
  destruct (score_loop (c :: flat) ∅ ∅) as [[wc ts]|e]; [|done].
  cbn [bind]. by rewrite mapM_rank_item_default_score.
Qed.

Lemma analyze_and_rank_trends_missing_score_witness :
  ∃ ranked,
    analyze_and_rank_trends Config.LOCATION missing_score_input = Ok ranked.
Proof.
  apply (analyze_and_rank_trends_missing_score Config.LOCATION missing_score_input);
    repeat constructor.
Defined.

Example missing_score_ranked :
  analyze_and_rank_trends Config.LOCATION missing_score_input
  = Ok [ {| topic := Some (PyStr "Tunis beaches"); score := Some (PyInt 52);
            source := Some (PyStr "google_rising") |} ].
Proof. vm_compute. reflexivity. Qed.

(** A score that is a [float] is added like any number: 65.5 and the two
    long words give 67.5. *)
Example float_score_ranked :
  analyze_and_rank_trends Config.LOCATION
    [("news", TopicList [{| topic := Some (PyStr "Tunis beaches");
                            score := Some (PyFloat 65.5);
                            source := Some (PyStr "newsapi") |}])]
  = Ok [ {| topic := Some (PyStr "Tunis beaches");
            score := Some (PyFloat 67.5); source := Some (PyStr "newsapi") |} ].
Proof. vm_compute. reflexivity. Qed.

(** A topic that is present and null has no [lower]. *)
Example null_topic_raises :
  analyze_and_rank_trends Config.LOCATION
    [("news", TopicList [{| topic := Some PyNone; score := Some (PyInt 65);
                            source := Some (PyStr "newsapi") |}])]
  = Raise AttributeError.
Proof. vm_compute. reflexivity. Qed.

(** C10. When the ["ranked"] entry is absent or an empty list,
    [get_best_topic] returns the first configured keyword; when it is a list
    with a first entry, it returns that entry's topic. *)
Theorem get_best_topic_first_or_keyword (location : Config.location)
        (trends_dict : trends) (kw : string) (kws : list string) :
  Config.keywords location = kw :: kws →
  ((dict_get "ranked" trends_dict = None
    ∨ dict_get "ranked" trends_dict = Some (TopicList [])) →
   get_best_topic location trends_dict = Ok (PyStr kw))
  ∧ (∀ first others t,
        dict_get "ranked" trends_dict = Some (TopicList (first :: others)) →
        topic first = Some t →
        get_best_topic location trends_dict = Ok t).
Proof.
  intros Hkw. unfold get_best_topic. split.
  - intros [-> | ->]; by rewrite Hkw.
  - intros first others t -> ->. done.
Qed.

Lemma get_best_topic_first_or_keyword_witness :
  get_best_topic Config.LOCATION [("google", TopicList []); ("reddit", TopicList [])]
  = Ok (PyStr "Tunis travel")
  ∧ get_best_topic Config.LOCATION
      [("google", TopicList []);
       ("ranked", TopicList [default_entry "Sidi Bou Said"])]
    = Ok (PyStr "Sidi Bou Said").
Proof.
  split.
  - apply (get_best_topic_first_or_keyword Config.LOCATION
             [("google", TopicList []); ("reddit", TopicList [])]
             "Tunis travel"
             ["Tunisia tourism"; "visit Tunis"; "things to do in Tunis";
              "Tunis hidden gems"]);
      [reflexivity | left; reflexivity].
  - apply (get_best_topic_first_or_keyword Config.LOCATION
             [("google", TopicList []);
              ("ranked", TopicList [default_entry "Sidi Bou Said"])]
             "Tunis travel"
             ["Tunisia tourism"; "visit Tunis"; "things to do in Tunis";
              "Tunis hidden gems"] eq_refl)
      with (first := default_entry "Sidi Bou Said") (others := []);
      reflexivity.
Defined.

End TrendAgent.

(** ** agents/publisher_agent.py: the publishers and their retry loops *)

Module PublisherAgent.
Local Open Scope Z_scope.

Definition MAX_RETRIES : Z := 3.
Definition RETRY_DELAY : Z := 5.

(** The credentials read from [config]. *)
Record credentials := {
  YOUTUBE_CLIENT_ID : string;
  YOUTUBE_CLIENT_SECRET : string;
  YOUTUBE_REFRESH_TOKEN : string;
  INSTAGRAM_ACCESS_TOKEN : string;
  INSTAGRAM_PAGE_ID : string;
  FACEBOOK_ACCESS_TOKEN : string;
  FACEBOOK_PAGE_ID : string;
  TELEGRAM_BOT_TOKEN : string;
  TELEGRAM_CHANNEL_ID : string
}.

(** Truth value of a [str]. *)
Definition truthy (s : string) : bool := negb (String.eqb s "").

Inductive exn :=
| ConnectionError      (* the transport failed *)
| HTTPError            (* raise_for_status / HttpError *)
| ValueError           (* the body is not JSON *)
| RefreshError         (* the token endpoint gave no access token *)
| KeyError
| FileNotFoundError
| RuntimeError
| TimeoutError.

(** What a run leaves behind, in order: the requests handed to the
    transport, the calls of [time.sleep], the warning logged for a failed
    attempt and the error logged when all attempts are used up. *)
Inductive event :=
| Request (url : string)
| Sleep (seconds : Z)
| AttemptFailed (platform : string) (attempt : Z)
| GaveUp (platform : string).

(** [Looping]: a [while] loop of the source has not finished within the
    number of iterations the model was given. *)
Inductive outcome (A : Type) :=
| Returned (a : A)
| Raised (e : exn)
| Looping.
Arguments Returned {A} a.
Arguments Raised {A} e.
Arguments Looping {A}.

(** A computation reads the trace so far and extends it. *)
Definition M (A : Type) : Type := list event → outcome A * list event.

Definition ret {A} (a : A) : M A := λ tr, (Returned a, tr).
Definition raise {A} (e : exn) : M A := λ tr, (Raised e, tr).
Definition emit (e : event) : M unit := λ tr, (Returned (), tr ++ [e]).

Definition bindM {A B} (m : M A) (k : A → M B) : M B :=
  λ tr, match m tr with
        | (Returned a, tr') => k a tr'
        | (Raised e, tr') => (Raised e, tr')
        | (Looping, tr') => (Looping, tr')
        end.

Notation "'let*' x ':=' m 'in' k" := (bindM m (λ x, k))
  (at level 10, x name, m at level 100, k at level 200).
Notation "m ';;' k" := (bindM m (λ _, k))
  (at level 100, k at level 200, right associativity).

(** An HTTP response: its status, when the body is JSON the fields of the
    body (a nested field is named by its path, ["result.message_id"]), and
    its [Location] header if it has one. *)
Record response := {
  status_code : Z;
  json : option (list (string * string));
  location : option string
}.

Definition raise_for_status (r : response) : M unit :=
  if (400 <=? status_code r) && (status_code r <? 600) then raise HTTPError
  else ret ().

Definition json_body (r : response) : M (list (string * string)) :=
  match json r with
  | Some d => ret d
  | None => raise ValueError
  end.

Fixpoint fields_get (k : string) (d : list (string * string)) : option string :=
  match d with
  | [] => None
  | (k', v) :: rest => if String.eqb k k' then Some v else fields_get k rest
  end.

(** [d[k]] *)
Definition field (k : string) (d : list (string * string)) : M string :=
  match fields_get k d with
  | Some v => ret v
  | None => raise KeyError
  end.

(** [range(lo, hi)] *)
Definition py_range (lo hi : Z) : list Z :=
  (λ i : nat, lo + Z.of_nat i) <$> seq 0 (Z.to_nat (hi - lo)).

Section Publishers.

Variable config : credentials.

(** The transport: what a request gets, given everything that happened
    before it; [None] when the request raises. *)
Variable transport : list event → string → option response.

(** Which paths can be opened for reading ([Path.exists] as well). *)
Variable readable : string → bool.

(** The number of chunk requests after which the model stops following
    the upload loop, and the number of status polls that fit before the
    deadline of [_wait_for_ig_processing] (at most 24). *)
Variable max_chunks : nat.
Variable ig_polls : nat.

(** The addresses of the two upload methods, [videos().insert] and
    [thumbnails().set], as the discovery document of the Google client
    library gives them. *)
Variable youtube_upload_url : string.
Variable youtube_thumbnail_url : string.

Definition send (url : string) : M response :=
  λ tr, match transport tr url with
        | Some r => (Returned r, tr ++ [Request url])
        | None => (Raised ConnectionError, tr ++ [Request url])
        end.

Definition open_file (path : string) : M unit :=
  if readable path then ret () else raise FileNotFoundError.

Definition sleep (seconds : Z) : M unit := emit (Sleep seconds).

(** The loop [for attempt in range(1, MAX_RETRIES + 1): try: ... return
    ... except Exception: ...] followed by the final error and
    [return None].  The four publishers repeat it verbatim around their
    own [try] body. *)
Fixpoint attempt_loop {A} (platform : string) (body : M A)
         (attempts : list Z) : M (option A) :=
  match attempts with
  | [] => emit (GaveUp platform) ;; ret None
  | attempt :: rest =>
      λ tr, match body tr with
            | (Returned a, tr') => (Returned (Some a), tr')
            | (Raised exc, tr') =>
                (emit (AttemptFailed platform attempt) ;;
                 (if attempt <? MAX_RETRIES
                  then sleep (RETRY_DELAY * attempt) else ret ()) ;;
                 attempt_loop platform body rest) tr'
            | (Looping, tr') => (Looping, tr')
            end
  end.

Definition with_retries {A} (platform : string) (body : M A) : M (option A) :=
  attempt_loop platform body (py_range 1 (MAX_RETRIES + 1)).

(** *** YouTube

    The requests of an upload are made by the Google client library
    (google-api-python-client 2 with google-auth), which is not part of the
    repository: [build] takes the service description from the library
    itself, without a request; [MediaFileUpload] opens the file; the first
    [next_chunk()] obtains an access token, opens a resumable session and
    sends the first chunk; the following ones send the remaining chunks. *)

(** [token_uri] of the credentials. *)
Definition oauth_token_url : string := "https://oauth2.googleapis.com/token".

(** The credentials are built with [token=None], so they are not valid:
    before its first request the client asks the token endpoint for an
    access token.  Any answer other than 200 with an [access_token] is a
    failure. *)
Definition refresh_access_token : M unit :=
  let* r := send oauth_token_url in
  match (if status_code r =? 200 then json r else None) with
  | Some body =>
      match fields_get "access_token" body with
      | Some _ => ret ()
      | None => raise RefreshError
      end
  | None => raise RefreshError
  end.

(** The request that opens the resumable session: the answer must be 200
    and name the session in its [Location] header. *)
Definition start_upload : M string :=
  let* r := send youtube_upload_url in
  match location r with
  | Some session => if status_code r =? 200 then ret session else raise HTTPError
  | None => raise HTTPError
  end.

(** [while response is None: _, response = request.next_chunk()], from the
    first chunk on: 200 or 201 ends the upload with the JSON body, 308 asks
    for the next chunk (and may move the session), anything else raises. *)
Fixpoint upload_chunks (chunks : nat) (session : string)
  : M (list (string * string)) :=
  match chunks with
  | O => λ tr, (Looping, tr)
  | S chunks' =>
      let* r := send session in
      if (status_code r =? 200) || (status_code r =? 201) then json_body r
      else if status_code r =? 308
           then upload_chunks chunks' (default session (location r))
           else raise HTTPError
  end.

(** [thumbnails().set(...).execute()]: a single request, made with the
    access token obtained for the upload. *)
Definition upload_thumbnail : M unit :=
  let* r := send youtube_thumbnail_url in
  if 300 <=? status_code r then raise HTTPError
  else if status_code r =? 204 then ret ()
  else (json_body r ;; ret ()).

Definition youtube_attempt (video_path : string)
           (thumbnail_path : option string) : M string :=
  open_file video_path ;;                       (* MediaFileUpload *)
  refresh_access_token ;;
  let* session := start_upload in
  let* response := upload_chunks max_chunks session in
  let* video_id := field "id" response in
  let url := "https://www.youtube.com/watch?v=" +:+ video_id in
  (match thumbnail_path with
   | Some thumb =>
       if readable thumb
       then upload_thumbnail                    (* thumbnail_path.exists() *)
       else ret ()
   | None => ret ()
   end) ;;
  ret url.

Definition publish_to_youtube (video_path : string)
           (thumbnail_path : option string) : M (option string) :=
  if negb (truthy (YOUTUBE_CLIENT_ID config)
           && truthy (YOUTUBE_CLIENT_SECRET config)
           && truthy (YOUTUBE_REFRESH_TOKEN config))
  then ret None
  else with_retries "YouTube" (youtube_attempt video_path thumbnail_path).

(** *** Instagram *)

Definition instagram_base_url : string :=
  "https://graph.facebook.com/v18.0/" +:+ INSTAGRAM_PAGE_ID config.

(** [_wait_for_ig_processing] *)
Fixpoint wait_for_ig_processing (polls : nat) (container_id : string) : M unit :=
  match polls with
  | O => raise TimeoutError
  | S polls' =>
      let* resp := send ("https://graph.facebook.com/v18.0/" +:+ container_id) in
      let* body := json_body resp in
      let status := default "" (fields_get "status_code" body) in
      if String.eqb status "FINISHED" then ret ()
      else if String.eqb status "ERROR" then raise RuntimeError
      else sleep 5 ;; wait_for_ig_processing polls' container_id
  end.

(** [_upload_video_to_cdn] logs a warning and returns the empty URL; the
    caption only shapes the request body. *)
Definition instagram_attempt : M string :=
  let* resp := send (instagram_base_url +:+ "/media") in
  raise_for_status resp ;;
  let* body := json_body resp in
  let* container_id := field "id" body in
  wait_for_ig_processing ig_polls container_id ;;
  let* pub_resp := send (instagram_base_url +:+ "/media_publish") in
  raise_for_status pub_resp ;;
  let* pub_body := json_body pub_resp in
  let* post_id := field "id" pub_body in
  ret ("https://www.instagram.com/p/" +:+ post_id +:+ "/").

Definition publish_to_instagram : M (option string) :=
  if negb (truthy (INSTAGRAM_ACCESS_TOKEN config)
           && truthy (INSTAGRAM_PAGE_ID config))
  then ret None
  else with_retries "Instagram" instagram_attempt.

(** *** Facebook *)

Definition facebook_url : string :=
  "https://graph-video.facebook.com/v18.0/" +:+ FACEBOOK_PAGE_ID config
    +:+ "/videos".

Definition facebook_attempt (video_path : string) : M string :=
  open_file video_path ;;
  let* resp := send facebook_url in
  raise_for_status resp ;;
  let* body := json_body resp in
  let post_id := default "" (fields_get "id" body) in
  ret ("https://www.facebook.com/video/" +:+ post_id).

Definition publish_to_facebook (video_path : string) : M (option string) :=
  if negb (truthy (FACEBOOK_ACCESS_TOKEN config)
           && truthy (FACEBOOK_PAGE_ID config))
  then ret None
  else with_retries "Facebook" (facebook_attempt video_path).

(** *** Telegram *)

Definition telegram_url (token method : string) : string :=
  "https://api.telegram.org/bot" +:+ token +:+ "/" +:+ method.

Definition telegram_attempt (token video_path : string) : M string :=
  open_file video_path ;;
  let* resp := send (telegram_url token "sendVideo") in
  raise_for_status resp ;;
  let* body := json_body resp in
  let* msg_id := field "result.message_id" body in
  let* _ := send (telegram_url token "pinChatMessage") in
  ret msg_id.

(** [channel_id or config.TELEGRAM_CHANNEL_ID] *)
Definition telegram_channel (channel_id : option string) : string :=
  match channel_id with
  | Some c => if truthy c then c else TELEGRAM_CHANNEL_ID config
  | None => TELEGRAM_CHANNEL_ID config
  end.

Definition publish_to_telegram (video_path : string)
           (channel_id : option string) : M (option string) :=
  let token := TELEGRAM_BOT_TOKEN config in
  let channel := telegram_channel channel_id in
  if negb (truthy token) || negb (truthy channel)
  then ret None
  else with_retries "Telegram" (telegram_attempt token video_path).

(** *** The retry loop on a body that always raises *)

(** The trace left by three failed attempts, each making the requests
    [reqs]. *)
Definition failed_attempts (platform : string) (reqs : list event) : list event :=
  reqs ++ [AttemptFailed platform 1; Sleep (RETRY_DELAY * 1)]
  ++ reqs ++ [AttemptFailed platform 2; Sleep (RETRY_DELAY * 2)]
  ++ reqs ++ [AttemptFailed platform 3; GaveUp platform].

Lemma attempt_loop_failed {A} platform (body : M A) attempt rest tr e tr' :
  body tr = (Raised e, tr') →
  attempt_loop platform body (attempt :: rest) tr
  = attempt_loop platform body rest
      (tr' ++ AttemptFailed platform attempt
           :: (if attempt <? MAX_RETRIES
               then [Sleep (RETRY_DELAY * attempt)] else [])).
Proof.
  intros Hbody. cbn [attempt_loop]. rewrite Hbody.
  unfold bindM, sleep, emit, ret.
  destruct (attempt <? MAX_RETRIES); cbv beta iota; [|done].
  by rewrite <- app_assoc.
Qed.

Lemma with_retries_failing {A} platform (body : M A) reqs :
  (∀ tr, ∃ e, body tr = (Raised e, tr ++ reqs)) →
  ∀ tr, with_retries platform body tr
        = (Returned None, tr ++ failed_attempts platform reqs).
Proof.
  intros Hbody tr. unfold with_retries, failed_attempts.
  change (py_range 1 (MAX_RETRIES + 1)) with [1; 2; 3].
  do 3 match goal with
       | |- attempt_loop _ _ (_ :: _) ?t = _ =>
           let He := fresh "He" in
           destruct (Hbody t) as [? He];
           rewrite (attempt_loop_failed _ _ _ _ _ _ _ He)
       end.
  cbn [attempt_loop]. unfold bindM, emit, ret.
  change (1 <? MAX_RETRIES) with true.
  change (2 <? MAX_RETRIES) with true.
  change (3 <? MAX_RETRIES) with false.
  f_equal. by rewrite <- !app_assoc.
Qed.

Hypothesis transport_fails : ∀ tr url, transport tr url = None.

Lemma send_fails url tr :
  send url tr = (Raised ConnectionError, tr ++ [Request url]).
Proof. unfold send. by rewrite transport_fails. Qed.

(** The requests of one attempt that first opens the video file: none when
    the file cannot be opened, since [open] raises before the request. *)
Definition requests_of_attempt (video_path url : string) : list event :=
  if readable video_path then [Request url] else [].

Lemma youtube_attempt_fails video_path thumbnail_path :
  ∀ tr, ∃ e, youtube_attempt video_path thumbnail_path tr
             = (Raised e, tr ++ requests_of_attempt video_path oauth_token_url).
Proof.
  intros tr.
  unfold youtube_attempt, requests_of_attempt, open_file, bindM, ret, raise.
  destruct (readable video_path).
  - exists ConnectionError. unfold refresh_access_token, bindM.
    by rewrite send_fails.
  - exists FileNotFoundError. by rewrite app_nil_r.
Qed.

Lemma instagram_attempt_fails :
  ∀ tr, ∃ e, instagram_attempt tr
             = (Raised e, tr ++ [Request (instagram_base_url +:+ "/media")]).
Proof.
  intros tr. exists ConnectionError.
  unfold instagram_attempt, bindM. by rewrite send_fails.
Qed.

Lemma facebook_attempt_fails video_path :
  ∀ tr, ∃ e, facebook_attempt video_path tr
             = (Raised e, tr ++ requests_of_attempt video_path facebook_url).
Proof.
  intros tr.
  unfold facebook_attempt, requests_of_attempt, open_file, bindM, ret, raise.
  destruct (readable video_path).
  - exists ConnectionError. by rewrite send_fails.
  - exists FileNotFoundError. by rewrite app_nil_r.
Qed.

Lemma telegram_attempt_fails token video_path :
  ∀ tr, ∃ e, telegram_attempt token video_path tr
             = (Raised e, tr ++ requests_of_attempt video_path
                                  (telegram_url token "sendVideo")).
Proof.
  intros tr.
  unfold telegram_attempt, requests_of_attempt, open_file, bindM, ret, raise.
  destruct (readable video_path).
  - exists ConnectionError. by rewrite send_fails.
  - exists FileNotFoundError. by rewrite app_nil_r.
Qed.

(** C7. With a transport that fails on every call, each publisher whose
    own credentials are present makes exactly [MAX_RETRIES] = 3 attempts
    (each sending its first request once, unless the video file cannot even
    be opened), sleeps [RETRY_DELAY * 1] and [RETRY_DELAY * 2] seconds
    between consecutive attempts, and returns [None] without raising.  The
    first request of a YouTube attempt is the one for an access token. *)
Theorem publish_retries_then_none (video_path : string)
        (thumbnail_path channel_id : option string) (tr : list event) :
  MAX_RETRIES = 3
  ∧ (truthy (YOUTUBE_CLIENT_ID config) = true →
     truthy (YOUTUBE_CLIENT_SECRET config) = true →
     truthy (YOUTUBE_REFRESH_TOKEN config) = true →
     publish_to_youtube video_path thumbnail_path tr
     = (Returned None,
        let reqs := requests_of_attempt video_path oauth_token_url in
        tr ++ reqs ++ [AttemptFailed "YouTube" 1; Sleep (RETRY_DELAY * 1)]
           ++ reqs ++ [AttemptFailed "YouTube" 2; Sleep (RETRY_DELAY * 2)]
           ++ reqs ++ [AttemptFailed "YouTube" 3; GaveUp "YouTube"]))
  ∧ (truthy (INSTAGRAM_ACCESS_TOKEN config) = true →
     truthy (INSTAGRAM_PAGE_ID config) = true →
     publish_to_instagram tr
     = (Returned None,
        tr ++ failed_attempts "Instagram"
                [Request (instagram_base_url +:+ "/media")]))
  ∧ (truthy (FACEBOOK_ACCESS_TOKEN config) = true →
     truthy (FACEBOOK_PAGE_ID config) = true →
     publish_to_facebook video_path tr
     = (Returned None,
        tr ++ failed_attempts "Facebook"
                (requests_of_attempt video_path facebook_url)))
  ∧ (truthy (TELEGRAM_BOT_TOKEN config) = true →
     truthy (telegram_channel channel_id) = true →
     publish_to_telegram video_path channel_id tr
     = (Returned None,
        tr ++ failed_attempts "Telegram"
                (requests_of_attempt video_path
                   (telegram_url (TELEGRAM_BOT_TOKEN config) "sendVideo")))).
Proof.
  split; [done|]. repeat split.
  - intros Hy1 Hy2 Hy3.
    unfold publish_to_youtube. rewrite Hy1, Hy2, Hy3. cbn [negb andb].
    by rewrite (with_retries_failing _ _ _
                  (youtube_attempt_fails video_path thumbnail_path)).
  - intros Hi1 Hi2.
    unfold publish_to_instagram. rewrite Hi1, Hi2. cbn [negb andb].
    by rewrite (with_retries_failing _ _ _ instagram_attempt_fails).
  - intros Hf1 Hf2.
    unfold publish_to_facebook. rewrite Hf1, Hf2. cbn [negb andb].
    by rewrite (with_retries_failing _ _ _ (facebook_attempt_fails video_path)).
  - intros Ht1 Ht2.
    unfold publish_to_telegram. rewrite Ht1, Ht2. cbn [negb orb].
    by rewrite (with_retries_failing _ _ _ (telegram_attempt_fails _ video_path)).
Qed.

End Publishers.

(** An instance for examples: all credentials set, every file readable. *)
Definition demo_config : credentials := {|
  YOUTUBE_CLIENT_ID := "yt-id";
  YOUTUBE_CLIENT_SECRET := "yt-secret";
  YOUTUBE_REFRESH_TOKEN := "yt-refresh";
  INSTAGRAM_ACCESS_TOKEN := "ig-token";
  INSTAGRAM_PAGE_ID := "1789";
  FACEBOOK_ACCESS_TOKEN := "fb-token";
  FACEBOOK_PAGE_ID := "4242";
  TELEGRAM_BOT_TOKEN := "bot-token";
  TELEGRAM_CHANNEL_ID := "@tunis"
|}.

Definition failing_transport (tr : list event) (url : string) : option response :=
  None.

(** A transport that fails twice and then accepts the upload. *)
Definition flaky_transport (tr : list event) (url : string) : option response :=
  if (length tr <? 6)%nat then None
  else Some {| status_code := 200; json := Some [("id", "987")];
               location := None |}.

Definition all_readable (path : string) : bool := true.

Example publish_to_facebook_third_attempt :
  publish_to_facebook demo_config flaky_transport all_readable "final.mp4" []
  = (Returned (Some "https://www.facebook.com/video/987"),
     [Request "https://graph-video.facebook.com/v18.0/4242/videos";
      AttemptFailed "Facebook" 1; Sleep 5;
      Request "https://graph-video.facebook.com/v18.0/4242/videos";
      AttemptFailed "Facebook" 2; Sleep 10;
      Request "https://graph-video.facebook.com/v18.0/4242/videos"]).
Proof. vm_compute. reflexivity. Qed.

(** The addresses of the upload methods in the examples. *)
Definition demo_upload_url : string :=
  "https://youtube.googleapis.com/upload/youtube/v3/videos".
Definition demo_thumbnail_url : string :=
  "https://youtube.googleapis.com/upload/youtube/v3/thumbnails/set".

Example publish_to_youtube_without_credentials :
  publish_to_youtube
    {| YOUTUBE_CLIENT_ID := "yt-id"; YOUTUBE_CLIENT_SECRET := "";
       YOUTUBE_REFRESH_TOKEN := "yt-refresh";
       INSTAGRAM_ACCESS_TOKEN := ""; INSTAGRAM_PAGE_ID := "";
       FACEBOOK_ACCESS_TOKEN := ""; FACEBOOK_PAGE_ID := "";
       TELEGRAM_BOT_TOKEN := ""; TELEGRAM_CHANNEL_ID := "" |}
    failing_transport all_readable 1 demo_upload_url demo_thumbnail_url
    "final.mp4" None []
  = (Returned None, []).
Proof. vm_compute. reflexivity. Qed.

(** A transport on which the upload succeeds in two chunks. *)
Definition uploading_transport (tr : list event) (url : string)
  : option response :=
  if String.eqb url oauth_token_url
  then Some {| status_code := 200; json := Some [("access_token", "ya29")];
               location := None |}
  else if String.eqb url demo_upload_url
  then Some {| status_code := 200; json := None;
               location := Some "https://upload.example/session-1" |}
  else if String.eqb url demo_thumbnail_url
  then Some {| status_code := 200; json := Some []; location := None |}
  else if (length tr <? 3)%nat
  then Some {| status_code := 308; json := None; location := None |}
  else Some {| status_code := 200; json := Some [("id", "dQw4w9WgXcQ")];
               location := None |}.

Example publish_to_youtube_uploads :
  publish_to_youtube demo_config uploading_transport all_readable 8
    demo_upload_url demo_thumbnail_url "final.mp4" (Some "thumbnail.jpg") []
  = (Returned (Some "https://www.youtube.com/watch?v=dQw4w9WgXcQ"),
     [Request oauth_token_url;
      Request demo_upload_url;
      Request "https://upload.example/session-1";
      Request "https://upload.example/session-1";
      Request demo_thumbnail_url]).
Proof. vm_compute. reflexivity. Qed.

(** A configuration with the YouTube credentials only. *)
Definition youtube_only_config : credentials := {|
  YOUTUBE_CLIENT_ID := "yt-id";
  YOUTUBE_CLIENT_SECRET := "yt-secret";
  YOUTUBE_REFRESH_TOKEN := "yt-refresh";
  INSTAGRAM_ACCESS_TOKEN := "";
  INSTAGRAM_PAGE_ID := "";
  FACEBOOK_ACCESS_TOKEN := "";
  FACEBOOK_PAGE_ID := "";
  TELEGRAM_BOT_TOKEN := "";
  TELEGRAM_CHANNEL_ID := ""
|}.

Lemma publish_retries_then_none_witness :
  publish_to_youtube youtube_only_config failing_transport all_readable 1
    demo_upload_url demo_thumbnail_url "final.mp4" (Some "thumbnail.jpg") []
  = (Returned None,
     [Request oauth_token_url; AttemptFailed "YouTube" 1; Sleep 5;
      Request oauth_token_url; AttemptFailed "YouTube" 2; Sleep 10;
      Request oauth_token_url; AttemptFailed "YouTube" 3; GaveUp "YouTube"])
  ∧ publish_to_instagram demo_config failing_transport 24 []
    = (Returned None,
       [Request "https://graph.facebook.com/v18.0/1789/media";
        AttemptFailed "Instagram" 1; Sleep 5;
        Request "https://graph.facebook.com/v18.0/1789/media";
        AttemptFailed "Instagram" 2; Sleep 10;
        Request "https://graph.facebook.com/v18.0/1789/media";
        AttemptFailed "Instagram" 3; GaveUp "Instagram"])
  ∧ publish_to_facebook demo_config failing_transport all_readable "final.mp4" []
    = (Returned None,
       [Request "https://graph-video.facebook.com/v18.0/4242/videos";
        AttemptFailed "Facebook" 1; Sleep 5;
        Request "https://graph-video.facebook.com/v18.0/4242/videos";
        AttemptFailed "Facebook" 2; Sleep 10;
        Request "https://graph-video.facebook.com/v18.0/4242/videos";
        AttemptFailed "Facebook" 3; GaveUp "Facebook"])
  ∧ publish_to_telegram demo_config failing_transport all_readable
      "final.mp4" None []
    = (Returned None,
       [Request "https://api.telegram.org/botbot-token/sendVideo";
        AttemptFailed "Telegram" 1; Sleep 5;
        Request "https://api.telegram.org/botbot-token/sendVideo";
        AttemptFailed "Telegram" 2; Sleep 10;
        Request "https://api.telegram.org/botbot-token/sendVideo";
        AttemptFailed "Telegram" 3; GaveUp "Telegram"]).
Proof.
  split; [|split; [|split]].
  - apply (publish_retries_then_none youtube_only_config failing_transport
             all_readable 1 24 demo_upload_url demo_thumbnail_url
             (λ _ _, eq_refl) "final.mp4" (Some "thumbnail.jpg") None []);
      reflexivity.
  - apply (publish_retries_then_none demo_config failing_transport
             all_readable 1 24 demo_upload_url demo_thumbnail_url
             (λ _ _, eq_refl) "final.mp4" (Some "thumbnail.jpg") None []);
      reflexivity.
  - apply (publish_retries_then_none demo_config failing_transport
             all_readable 1 24 demo_upload_url demo_thumbnail_url
             (λ _ _, eq_refl) "final.mp4" (Some "thumbnail.jpg") None []);
      reflexivity.
  - apply (publish_retries_then_none demo_config failing_transport
             all_readable 1 24 demo_upload_url demo_thumbnail_url
             (λ _ _, eq_refl) "final.mp4" (Some "thumbnail.jpg") None []);
      reflexivity.
Defined.

End PublisherAgent.

(** ** Python values and their JSON documents ([json.dumps], [json.loads]) *)

Module PyJson.
Local Open Scope Z_scope.

#[local] Unset Elimination Schemes.

(** The Python values a content payload is built from.  A dictionary has
    [str] keys and is kept in insertion order; [PPath] is a [pathlib.Path]
    (the thumbnail of a content payload is one). *)
Inductive pyobj :=
| PNone
| PBool (b : bool)
| PInt (z : Z)
| PStr (s : string)
| PList (l : list pyobj)
| PTuple (l : list pyobj)
| PDict (d : list (string * pyobj))
| PPath (p : string).

(** A JSON document (numbers are integers). *)
Inductive json :=
| JNull
| JBool (b : bool)
| JInt (z : Z)
| JStr (s : string)
| JArr (l : list json)
| JObj (d : list (string * json)).

#[local] Set Elimination Schemes.

(** [d.get(k)] and [d[k] = v] on an insertion-ordered dictionary. *)
Fixpoint dict_get {V} (k : string) (d : list (string * V)) : option V :=
  match d with
  | [] => None
  | (k', v) :: rest => if decide (k = k') then Some v else dict_get k rest
  end.

Fixpoint dict_set {V} (k : string) (v : V) (d : list (string * V))
  : list (string * V) :=
  match d with
  | [] => [(k, v)]
  | (k', v') :: rest =>
      if decide (k = k') then (k, v) :: rest
      else (k', v') :: dict_set k v rest
  end.

(** A dictionary built from the pairs of a JSON object: a repeated key
    keeps its last value. *)
Definition dict_of_pairs {V} (pairs : list (string * V)) : list (string * V) :=
  foldl (λ d kv, dict_set kv.1 kv.2 d) [] pairs.

Fixpoint all_some {A} (l : list (option A)) : option (list A) :=
  match l with
  | [] => Some []
  | Some x :: rest => cons x <$> all_some rest
  | None :: _ => None
  end.

(** [json.dumps]: the document written for a value, [None] when the value
    is not serialisable ([TypeError]).  A tuple is written as an array. *)
Fixpoint dumps (v : pyobj) : option json :=
  match v with
  | PNone => Some JNull
  | PBool b => Some (JBool b)
  | PInt z => Some (JInt z)
  | PStr s => Some (JStr s)
  | PList l | PTuple l => JArr <$> all_some (map dumps l)
  | PDict d => JObj <$> all_some (map (λ kv, pair kv.1 <$> dumps kv.2) d)
  | PPath _ => None
  end.

(** [json.loads]: the value read back from a document. *)
Fixpoint loads (j : json) : pyobj :=
  match j with
  | JNull => PNone
  | JBool b => PBool b
  | JInt z => PInt z
  | JStr s => PStr s
  | JArr l => PList (map loads l)
  | JObj d => PDict (dict_of_pairs (map (λ kv, (kv.1, loads kv.2)) d))
  end.

(** The values JSON writes and reads back as themselves: no tuple, no
    object that is not serialisable, dictionaries with distinct keys. *)
Fixpoint json_native (v : pyobj) : Prop :=
  match v with
  | PNone | PBool _ | PInt _ | PStr _ => True
  | PList l => foldr (λ x P, json_native x ∧ P) True l
  | PTuple _ | PPath _ => False
  | PDict d => NoDup d.*1 ∧ foldr (λ kv P, json_native kv.2 ∧ P) True d
  end.

(** *** Induction on nested values *)

Section pyobj_induction.
Variable P : pyobj → Prop.
Hypothesis HNone : P PNone.
Hypothesis HBool : ∀ b, P (PBool b).
Hypothesis HInt : ∀ z, P (PInt z).
Hypothesis HStr : ∀ s, P (PStr s).
Hypothesis HList : ∀ l, Forall P l → P (PList l).
Hypothesis HTuple : ∀ l, Forall P l → P (PTuple l).
Hypothesis HDict : ∀ d, Forall (λ kv, P kv.2) d → P (PDict d).
Hypothesis HPath : ∀ p, P (PPath p).

Fixpoint pyobj_ind (v : pyobj) : P v :=
  match v with
  | PNone => HNone
  | PBool b => HBool b
  | PInt z => HInt z
  | PStr s => HStr s
  | PList l =>
      HList l ((fix go l : Forall P l :=
                  match l with
                  | [] => List.Forall_nil P
                  | x :: r => @List.Forall_cons _ P x r (pyobj_ind x) (go r)
                  end) l)
  | PTuple l =>
      HTuple l ((fix go l : Forall P l :=
                   match l with
                   | [] => List.Forall_nil P
                   | x :: r => @List.Forall_cons _ P x r (pyobj_ind x) (go r)
                   end) l)
  | PDict d =>
      HDict d ((fix go d : Forall (λ kv, P kv.2) d :=
                  match d with
                  | [] => List.Forall_nil _
                  | kv :: r => @List.Forall_cons _ _ kv r (pyobj_ind kv.2) (go r)
                  end) d)
  | PPath p => HPath p
  end.
End pyobj_induction.

Section json_induction.
Variable P : json → Prop.
Hypothesis HNull : P JNull.
Hypothesis HBool : ∀ b, P (JBool b).
Hypothesis HInt : ∀ z, P (JInt z).
Hypothesis HStr : ∀ s, P (JStr s).
Hypothesis HArr : ∀ l, Forall P l → P (JArr l).
Hypothesis HObj : ∀ d, Forall (λ kv, P kv.2) d → P (JObj d).

Fixpoint json_ind (j : json) : P j :=
  match j with
  | JNull => HNull
  | JBool b => HBool b
  | JInt z => HInt z
  | JStr s => HStr s
  | JArr l =>
      HArr l ((fix go l : Forall P l :=
                 match l with
                 | [] => List.Forall_nil P
                 | x :: r => @List.Forall_cons _ P x r (json_ind x) (go r)
                 end) l)
  | JObj d =>
      HObj d ((fix go d : Forall (λ kv, P kv.2) d :=
                 match d with
                 | [] => List.Forall_nil _
                 | kv :: r => @List.Forall_cons _ _ kv r (json_ind kv.2) (go r)
                 end) d)
  end.
End json_induction.

(** *** Dictionaries *)

Lemma dict_get_set {V} k (v : V) d : dict_get k (dict_set k v d) = Some v.
Proof.
  induction d as [|[k' v'] d IH]; simpl.
  - by rewrite decide_True.
  - case_decide; simpl; [by rewrite decide_True|by rewrite decide_False].
Qed.

Lemma dict_set_fresh {V} k (v : V) d :
  k ∉ d.*1 → dict_set k v d = d ++ [(k, v)].
Proof.
  induction d as [|[k' v'] d IH]; simpl; [done|].
  intros [Hne Hk]%not_elem_of_cons.
  rewrite decide_False by done. by rewrite IH.
Qed.

Lemma dict_set_keys_in {V} k (v : V) d k0 :
  k0 ∈ (dict_set k v d).*1 ↔ k0 = k ∨ k0 ∈ d.*1.
Proof.
  induction d as [|[k' v'] d IH]; simpl.
  - rewrite list_elem_of_singleton, elem_of_nil. tauto.
  - case_decide as Hk; simpl.
    + subst k'. rewrite !elem_of_cons. tauto.
    + rewrite !elem_of_cons, IH. tauto.
Qed.

Lemma dict_set_NoDup {V} k (v : V) d :
  NoDup d.*1 → NoDup (dict_set k v d).*1.
Proof.
  induction d as [|[k' v'] d IH]; simpl.
  - intros _. apply NoDup_singleton.
  - intros [Hk' Hd]%NoDup_cons. case_decide as Hk; simpl.
    + subst k'. by apply NoDup_cons.
    + apply NoDup_cons. split; [|by apply IH].
      rewrite dict_set_keys_in. intros [->|?]; done.
Qed.

Lemma dict_set_Forall {V} (Q : V → Prop) k v d :
  Q v → Forall (λ kv, Q kv.2) d → Forall (λ kv, Q kv.2) (dict_set k v d).
Proof.
  intros Hv. induction 1 as [|[k' v'] d Hkv Hd IH]; simpl.
  - by repeat constructor.
  - case_decide; by constructor.
Qed.

Lemma dict_of_pairs_from {V} (Q : V → Prop) (pairs acc : list (string * V)) :
  NoDup acc.*1 → Forall (λ kv, Q kv.2) acc → Forall (λ kv, Q kv.2) pairs →
  NoDup (foldl (λ d kv, dict_set kv.1 kv.2 d) acc pairs).*1
  ∧ Forall (λ kv, Q kv.2) (foldl (λ d kv, dict_set kv.1 kv.2 d) acc pairs).
Proof.
  revert acc. induction pairs as [|[k v] pairs IH]; intros acc Hnd Hacc Hp; simpl.
  - done.
  - apply Forall_cons in Hp as [Hv Hp]. apply IH; [|by apply dict_set_Forall|done].
    by apply dict_set_NoDup.
Qed.

Lemma dict_of_pairs_id {V} (pairs : list (string * V)) :
  NoDup pairs.*1 → dict_of_pairs pairs = pairs.
Proof.
  unfold dict_of_pairs.
  enough (∀ acc, NoDup (acc ++ pairs).*1 →
            foldl (λ d kv, dict_set kv.1 kv.2 d) acc pairs = acc ++ pairs)
    as Hgen by (intros; by apply (Hgen [])).
  induction pairs as [|[k v] pairs IH]; intros acc Hnd; simpl.
  - by rewrite app_nil_r.
  - rewrite dict_set_fresh.
    + rewrite IH; rewrite <- app_assoc; done.
    + rewrite fmap_app in Hnd. apply NoDup_app in Hnd as (_ & Hdisj & _).
      intros Hk. apply (Hdisj k Hk). simpl. by left.
Qed.

(** *** Writing and reading back *)

Lemma json_native_list l : json_native (PList l) ↔ Forall json_native l.
Proof.
  simpl. induction l as [|x l IH]; simpl.
  - split; [constructor|done].
  - rewrite Forall_cons, IH. done.
Qed.

Lemma json_native_dict d :
  json_native (PDict d) ↔ NoDup d.*1 ∧ Forall (λ kv, json_native kv.2) d.
Proof.
  simpl. apply and_iff_compat_l. induction d as [|kv d IH]; simpl.
  - split; [constructor|done].
  - rewrite Forall_cons, IH. done.
Qed.

Lemma loads_native j : json_native (loads j).
Proof.
  induction j as [| | | |l IH|d IH] using json_ind; try done.
  - change (loads (JArr l)) with (PList (map loads l)).
    apply json_native_list. by apply Forall_map.
  - change (loads (JObj d))
      with (PDict (dict_of_pairs (map (λ kv, (kv.1, loads kv.2)) d))).
    apply json_native_dict. unfold dict_of_pairs.
    apply dict_of_pairs_from; [constructor|constructor|].
    by apply Forall_map.
Qed.

Lemma dumps_loads v :
  json_native v → ∃ j, dumps v = Some j ∧ loads j = v.
Proof.
  induction v as [| | | |l IH|l IH|d IH|] using pyobj_ind; try done;
    try (intros _; eexists; split; reflexivity).
  - intros Hl%json_native_list.
    enough (∃ js, all_some (map dumps l) = Some js ∧ map loads js = l)
      as (js & Hjs & Hback).
    { exists (JArr js). simpl. rewrite Hjs. simpl. by rewrite Hback. }
    induction l as [|x l IHl]; [by exists []|].
    apply Forall_cons in IH as [Hx IH]. apply Forall_cons in Hl as [Hnx Hl].
    destruct (Hx Hnx) as (j & Hj & Hjb).
    destruct (IHl IH Hl) as (js & Hjs & Hjsb).
    exists (j :: js). simpl. rewrite Hj, Hjs. simpl. by rewrite Hjb, Hjsb.
  - intros [Hnd Hd]%json_native_dict.
    enough (∃ jd, all_some (map (λ kv, pair kv.1 <$> dumps kv.2) d) = Some jd
                  ∧ map (λ kv, (kv.1, loads kv.2)) jd = d)
      as (jd & Hjd & Hback).
    { exists (JObj jd). simpl. rewrite Hjd. simpl.
      rewrite Hback. by rewrite dict_of_pairs_id. }
    clear Hnd. induction d as [|[k x] d IHd]; [by exists []|].
    apply Forall_cons in IH as [Hx IH]. apply Forall_cons in Hd as [Hnx Hd].
    destruct (Hx Hnx) as (j & Hj & Hjb).
    destruct (IHd IH Hd) as (jd & Hjd & Hjdb).
    exists ((k, j) :: jd). simpl in *. rewrite Hj, Hjd. simpl.
    by rewrite Hjb, Hjdb.
Qed.

End PyJson.

(** ** agents/publisher_agent.py: the queue of scheduled posts *)

Module PublisherQueue.
Import Py PyJson.

(** [QUEUE_FILE]: absent ([None]), present with a text that is not JSON
    ([Some None]), or present with a JSON document. *)
Definition queue_file := option (option json).

Definition _load_queue (file : queue_file) : pyobj :=
  match file with
  | Some (Some j) => loads j
  | Some None | None => PDict []
  end.

(** [json.dumps] runs before [write_text]: when it raises, the file is
    left as it was.  The directory and the file are taken to be writable
    ([mkdir] and [write_text] succeed). *)
Definition _save_queue (queue : pyobj) (file : queue_file)
  : result unit * queue_file :=
  match dumps queue with
  | Some j => (Ok (), Some (Some j))
  | None => (Raise TypeError, file)
  end.

(** A naive [datetime]. *)
Record datetime := {
  year : nat; month : nat; day : nat;
  hour : nat; minute : nat; second : nat;
  microsecond : nat
}.

(** Decimal digits of [n], padded with zeros to [width] (years are taken
    to have four digits). *)
Definition digits (n : nat) : string :=
  DecimalString.NilZero.string_of_uint (Nat.to_uint n).

Fixpoint zeros (n : nat) : string :=
  match n with
  | O => ""
  | S n' => String "0" (zeros n')
  end.

Definition pad (width n : nat) : string :=
  zeros (width - String.length (digits n)) +:+ digits n.

(** [publish_time.strftime('%Y%m%d_%H%M%S')] *)
Definition strftime_compact (t : datetime) : string :=
  pad 4 (year t) +:+ pad 2 (month t) +:+ pad 2 (day t) +:+ "_"
  +:+ pad 2 (hour t) +:+ pad 2 (minute t) +:+ pad 2 (second t).

(** [publish_time.isoformat()] *)
Definition isoformat (t : datetime) : string :=
  pad 4 (year t) +:+ "-" +:+ pad 2 (month t) +:+ "-" +:+ pad 2 (day t)
  +:+ "T" +:+ pad 2 (hour t) +:+ ":" +:+ pad 2 (minute t) +:+ ":"
  +:+ pad 2 (second t)
  +:+ (if (microsecond t =? 0)%nat then "" else "." +:+ pad 6 (microsecond t)).

Definition entry_id_of (platform : string) (publish_time : datetime) : string :=
  platform +:+ "_" +:+ strftime_compact publish_time.

(** The record stored for a scheduled post. *)
Definition queue_entry (platform : string) (content : pyobj)
           (publish_time : datetime) : pyobj :=
  PDict [("platform", PStr platform);
         ("content", content);
         ("publish_time", PStr (isoformat publish_time));
         ("status", PStr "pending")].

(** [schedule_post]: the returned entry id (or the exception raised) and the
    queue file afterwards.  [queue[entry_id] = ...] raises [TypeError] when
    the loaded document is not an object. *)
Definition schedule_post (platform : string) (content : pyobj)
           (publish_time : datetime) (file : queue_file)
  : result string * queue_file :=
  let queue := _load_queue file in
  let entry_id := entry_id_of platform publish_time in
  match queue with
  | PDict d =>
      let queue' := PDict (dict_set entry_id
                                    (queue_entry platform content publish_time) d) in
      match _save_queue queue' file with
      | (Ok _, file') => (Ok entry_id, file')
      | (Raise e, file') => (Raise e, file')
      end
  | _ => (Raise TypeError, file)
  end.

(** Reloading the queue and reading one entry. *)
Definition reload_entry (entry_id : string) (file : queue_file) : option pyobj :=
  match _load_queue file with
  | PDict d => dict_get entry_id d
  | _ => None
  end.

(** The queue file as [_save_queue] leaves it, or before the first save. *)
Definition queue_file_ok (file : queue_file) : Prop :=
  match file with
  | Some (Some (JObj _)) | Some None | None => True
  | Some (Some _) => False
  end.

Lemma load_queue_dict file :
  queue_file_ok file →
  ∃ d, _load_queue file = PDict d ∧ json_native (PDict d).
Proof.
  destruct file as [[j|]|]; simpl.
  - destruct j; try done. intros _.
    eexists. split; [reflexivity|]. apply (loads_native (JObj d)).
  - intros _. exists []. split; [done|]. simpl. split; [constructor|done].
  - intros _. exists []. split; [done|]. simpl. split; [constructor|done].
Qed.

(** *** Example payloads *)

Definition tonight : datetime :=
  {| year := 2024; month := 6; day := 1;
     hour := 20; minute := 0; second := 5; microsecond := 0 |}.

(** A payload JSON represents as itself. *)
Definition plain_content : pyobj :=
  PDict [("title", PStr "Visit Tunis");
         ("captions", PDict [("youtube", PStr "Sunset at Sidi Bou Said")]);
         ("thumbnail", PNone);
         ("tags", PList [PStr "#Tunis"; PStr "#travel"])].

(** A payload holding a tuple of tags. *)
Definition tuple_content : pyobj :=
  PDict [("title", PStr "Visit Tunis");
         ("tags", PTuple [PStr "#Tunis"; PStr "#travel"])].

(** The payload [_schedule_all] receives when a thumbnail was made. *)
Definition thumbnail_content : pyobj :=
  PDict [("title", PStr "Visit Tunis");
         ("captions", PDict [("youtube", PStr "Sunset at Sidi Bou Said")]);
         ("thumbnail", PPath "output/images/thumbnail.jpg");
         ("tags", PList [PStr "#Tunis"; PStr "#travel"])].

Example entry_id_tonight : entry_id_of "youtube" tonight = "youtube_20240601_200005".
Proof. vm_compute. reflexivity. Qed.

Example schedule_post_thumbnail_raises :
  schedule_post "youtube" thumbnail_content tonight None = (Raise TypeError, None).
Proof. vm_compute. reflexivity. Qed.

(** A payload with a tuple is stored, and comes back with a list in the
    tuple's place: the content read back is not the content written. *)
Lemma schedule_post_tuple_not_restored :
  (schedule_post "youtube" tuple_content tonight None).1
  = Ok "youtube_20240601_200005"
  ∧ reload_entry "youtube_20240601_200005"
      (schedule_post "youtube" tuple_content tonight None).2
    = Some (queue_entry "youtube"
              (PDict [("title", PStr "Visit Tunis");
                      ("tags", PList [PStr "#Tunis"; PStr "#travel"])])
              tonight)
  ∧ reload_entry "youtube_20240601_200005"
      (schedule_post "youtube" tuple_content tonight None).2
    ≠ Some (queue_entry "youtube" tuple_content tonight).
Proof.
  split; [vm_compute; reflexivity|].
  split; [vm_compute; reflexivity|]. vm_compute. discriminate.
Qed.

(** C9 (amended). For a content payload that JSON represents as itself and
    a queue file that is absent, unparsable or holds a JSON object,
    [schedule_post] returns the key [<platform>_<timestamp>], and reloading
    the queue finds under that key the record with the platform and the
    content written and the status "pending". *)
Theorem schedule_post_reload (platform : string) (content : pyobj)
        (publish_time : datetime) (file : queue_file) :
  json_native content →
  queue_file_ok file →
  ∃ file',
    schedule_post platform content publish_time file
    = (Ok (platform +:+ "_" +:+ strftime_compact publish_time), file')
    ∧ reload_entry (platform +:+ "_" +:+ strftime_compact publish_time) file'
      = Some (PDict [("platform", PStr platform);
                     ("content", content);
                     ("publish_time", PStr (isoformat publish_time));
                     ("status", PStr "pending")]).
Proof.
  intros Hcontent Hfile.
  destruct (load_queue_dict file Hfile) as (d & Hload & [Hnd Hd]%json_native_dict).
  fold (entry_id_of platform publish_time).
  fold (queue_entry platform content publish_time).
  set (entry_id := entry_id_of platform publish_time).
  set (entry := queue_entry platform content publish_time).
  assert (json_native entry) as Hentry.
  { simpl. split; [|tauto]. apply (bool_decide_unpack _). by vm_compute. }
  assert (json_native (PDict (dict_set entry_id entry d))) as Hqueue.
  { apply json_native_dict. split; [by apply dict_set_NoDup|].
    by apply dict_set_Forall. }
  destruct (dumps_loads _ Hqueue) as (j & Hdump & Hback).
  exists (Some (Some j)). unfold schedule_post, _save_queue.
  rewrite Hload. fold entry_id entry. rewrite Hdump. split; [done|].
  unfold reload_entry, _load_queue. rewrite Hback. apply dict_get_set.
Qed.

Lemma schedule_post_reload_witness :
  ∃ file',
    schedule_post "youtube" plain_content tonight
      (Some (Some (JObj [("facebook_20240531_090000", JObj [("status", JStr "pending")])])))
    = (Ok "youtube_20240601_200005", file')
    ∧ reload_entry "youtube_20240601_200005" file'
      = Some (PDict [("platform", PStr "youtube");
                     ("content", plain_content);
                     ("publish_time", PStr "2024-06-01T20:00:05");
                     ("status", PStr "pending")]).
Proof.
  apply (schedule_post_reload "youtube" plain_content tonight
           (Some (Some (JObj [("facebook_20240531_090000",
                               JObj [("status", JStr "pending")])])))).
  - simpl. repeat split; apply (bool_decide_unpack _); by vm_compute.
  - exact I.
Defined.

End PublisherQueue.

(** ** agents/analytics_agent.py: the performance table *)

Module AnalyticsAgent.
Import PyJson.
Local Open Scope Z_scope.

(** A row of the [performance] table; [metrics_json] is the document
    written by [json.dumps(metrics)]. *)
Record performance_row := {
  id : Z;
  platform : string;
  post_id : string;
  date : string;
  metrics_json : json;
  topic : string
}.

(** The database: the rows of [performance] in the order of insertion and
    the largest row id handed out so far (AUTOINCREMENT). *)
Record database := {
  performance : list performance_row;
  performance_seq : Z
}.

(** The columns of [UNIQUE(platform, post_id, date)]. *)
Definition unique_key (r : performance_row) : string * string * string :=
  (platform r, post_id r, date r).

(** [_init_db]: [CREATE TABLE IF NOT EXISTS] on a database file that is
    missing ([None]) or already there. *)
Definition _init_db (file : option database) : database :=
  match file with
  | Some db => db
  | None => {| performance := []; performance_seq := 0 |}
  end.

(** [INSERT OR REPLACE INTO performance (platform, post_id, date,
    metrics_json, topic) VALUES (...)]: the rows in conflict with the new
    one on the unique columns are deleted, then the row is inserted under
    the next row id. *)
Definition insert_or_replace (db : database) (platform post_id date : string)
           (metrics_json : json) (topic : string) : database :=
  let rowid := performance_seq db + 1 in
  let row := {| id := rowid; platform := platform; post_id := post_id;
                date := date; metrics_json := metrics_json; topic := topic |} in
  {| performance :=
       filter (λ r, unique_key r ≠ (platform, post_id, date)) (performance db)
       ++ [row];
     performance_seq := rowid |}.

(** [store_metrics]; [today] is [datetime.now().strftime("%Y-%m-%d")].
    When [json.dumps(metrics)] raises, the exception is caught, nothing is
    written and [False] is returned. *)
Definition store_metrics (db : database) (today platform post_id : string)
           (metrics : pyobj) (topic : string) : bool * database :=
  match dumps metrics with
  | Some metrics_json =>
      (true, insert_or_replace db platform post_id today metrics_json topic)
  | None => (false, db)
  end.

(** One call of [store_metrics], with the day it is made on. *)
Record store_call := {
  call_today : string;
  call_platform : string;
  call_post_id : string;
  call_metrics : pyobj;
  call_topic : string
}.

Definition run_call (db : database) (c : store_call) : database :=
  (store_metrics db (call_today c) (call_platform c) (call_post_id c)
                 (call_metrics c) (call_topic c)).2.

Definition run_calls (db : database) (calls : list store_call) : database :=
  foldl run_call db calls.

(** The rows stored for a triple. *)
Definition rows_of (db : database) (k : string * string * string)
  : list performance_row :=
  filter (λ r, unique_key r = k) (performance db).

(** *** The uniqueness invariant *)

Definition unique_rows (db : database) : Prop :=
  NoDup (unique_key <$> performance db).

Lemma keys_without (rows : list performance_row) k :
  unique_key <$> filter (λ r, unique_key r ≠ k) rows
  = filter (λ k', k' ≠ k) (unique_key <$> rows).
Proof.
  induction rows as [|r rows IH]; [done|].
  rewrite fmap_cons, !filter_cons. case_decide; [|done].
  by rewrite fmap_cons, IH.
Qed.

Lemma insert_or_replace_unique db platform post_id date mj topic :
  unique_rows db →
  unique_rows (insert_or_replace db platform post_id date mj topic).
Proof.
  unfold unique_rows, insert_or_replace. simpl. intros Hnd.
  rewrite fmap_app, keys_without. apply NoDup_app. repeat split.
  - by apply NoDup_filter.
  - intros k [Hk _]%list_elem_of_filter ->%list_elem_of_singleton. done.
  - apply NoDup_singleton.
Qed.

Lemma store_metrics_unique db today platform post_id metrics topic :
  unique_rows db →
  unique_rows (store_metrics db today platform post_id metrics topic).2.
Proof.
  intros Hdb. unfold store_metrics.
  destruct (dumps metrics); simpl; [by apply insert_or_replace_unique|done].
Qed.

Lemma run_calls_unique calls : ∀ db,
  unique_rows db → unique_rows (run_calls db calls).
Proof.
  induction calls as [|c calls IH]; intros db Hdb; simpl; [done|].
  apply IH, store_metrics_unique, Hdb.
Qed.

Lemma rows_of_unique db k :
  unique_rows db → (length (rows_of db k) <= 1)%nat.
Proof.
  unfold unique_rows, rows_of. induction (performance db) as [|r rows IH].
  - simpl. lia.
  - rewrite fmap_cons. intros [Hr Hrows]%NoDup_cons.
    rewrite filter_cons. case_decide as Hk; [|by apply IH].
    destruct (filter (λ r, unique_key r = k) rows) as [|r' others] eqn:Hf;
      [simpl; lia|].
    exfalso. assert (r' ∈ filter (λ r, unique_key r = k) rows) as Hin
      by (rewrite Hf; left).
    apply list_elem_of_filter in Hin as [Hk' Hr'].
    apply Hr, list_elem_of_fmap. exists r'. split; [congruence|done].
Qed.

(** *** What one call does to the rows of a triple *)

Lemma rows_replaced (rows : list performance_row) k :
  filter (λ r, unique_key r = k) (filter (λ r, unique_key r ≠ k) rows) = [].
Proof.
  induction rows as [|r rows IH]; [done|].
  rewrite (filter_cons _ r). case_decide as Hk; [|done].
  by rewrite filter_cons_False.
Qed.

Lemma rows_kept (rows : list performance_row) k k' :
  k' ≠ k →
  filter (λ r, unique_key r = k') (filter (λ r, unique_key r ≠ k) rows)
  = filter (λ r, unique_key r = k') rows.
Proof.
  intros Hne. induction rows as [|r rows IH]; [done|].
  destruct (decide (unique_key r = k)) as [Heq|Hneq].
  - rewrite (filter_cons_False (λ r, unique_key r ≠ k) r) by (intros H; by apply H).
    rewrite (filter_cons_False (λ r, unique_key r = k') r) by congruence.
    exact IH.
  - rewrite (filter_cons_True (λ r, unique_key r ≠ k) r) by done.
    by rewrite !(filter_cons (λ r, unique_key r = k') r), IH.
Qed.

Lemma rows_split (rows : list performance_row) k :
  length rows
  = (length (filter (λ r, unique_key r = k) rows)
     + length (filter (λ r, unique_key r ≠ k) rows))%nat.
Proof.
  induction rows as [|r rows IH]; [done|].
  rewrite !filter_cons. simpl. repeat case_decide; simpl; try done; lia.
Qed.

Lemma init_db_unique : unique_rows (_init_db None).
Proof. unfold unique_rows. simpl. constructor. Qed.

(** C8. After any sequence of [store_metrics] calls on a fresh database, at
    most one row exists for each (platform, post_id, date); and one more
    call whose metrics serialise leaves exactly one row for its triple,
    holding the metrics and topic just stored, leaves the rows of every
    other triple as they were, and does not grow the table when the triple
    already had a row. *)
Theorem store_metrics_one_row_per_triple (calls : list store_call)
        (today platform post_id : string) (metrics : pyobj) (topic : string)
        (mj : json) :
  dumps metrics = Some mj →
  let db := run_calls (_init_db None) calls in
  let stored := store_metrics db today platform post_id metrics topic in
  (∀ k, (length (rows_of db k) <= 1)%nat)
  ∧ stored.1 = true
  ∧ rows_of stored.2 (platform, post_id, today)
    = [ {| id := performance_seq db + 1; platform := platform;
           post_id := post_id; date := today;
           metrics_json := mj; topic := topic |} ]
  ∧ (∀ k, k ≠ (platform, post_id, today) → rows_of stored.2 k = rows_of db k)
  ∧ (∀ k, (length (rows_of stored.2 k) <= 1)%nat)
  ∧ (rows_of db (platform, post_id, today) ≠ [] →
     length (performance stored.2) = length (performance db)).
Proof.
  intros Hmj db stored.
  assert (unique_rows db) as Hdb by apply run_calls_unique, init_db_unique.
  subst stored. unfold store_metrics. rewrite Hmj. simpl.
  unfold rows_of, insert_or_replace. simpl. repeat split.
  - intros k. by apply rows_of_unique.
  - rewrite filter_app, rows_replaced. by rewrite filter_cons_True.
  - intros k Hk. rewrite filter_app, rows_kept by done.
    rewrite filter_cons_False, filter_nil, app_nil_r; [done|].
    intros Heq. apply Hk. by rewrite <- Heq.
  - intros k.
    apply (rows_of_unique (insert_or_replace db platform post_id today mj topic)).
    by apply insert_or_replace_unique.
  - intros Hrow. rewrite length_app. simpl.
    pose proof (rows_of_unique db (platform, post_id, today) Hdb) as Hle.
    pose proof (rows_split (performance db) (platform, post_id, today)) as Hsplit.
    unfold rows_of in *.
    destruct (filter (λ r, unique_key r = (platform, post_id, today))
                     (performance db)) as [|r rs]; [done|].
    simpl in *. lia.
Qed.

(** Two fetches of the same YouTube video on one day, one on the next. *)
Definition views (n : Z) : pyobj := PDict [("views", PInt n); ("likes", PInt 3)].

Definition demo_calls : list store_call :=
  [ {| call_today := "2024-06-01"; call_platform := "youtube";
       call_post_id := "abc123"; call_metrics := views 10; call_topic := "" |};
    {| call_today := "2024-06-01"; call_platform := "instagram";
       call_post_id := "abc123"; call_metrics := views 7; call_topic := "" |} ].

Example store_metrics_same_day :
  performance
    (store_metrics (run_calls (_init_db None) demo_calls)
                   "2024-06-01" "youtube" "abc123" (views 25) "").2
  = [ {| id := 2; platform := "instagram"; post_id := "abc123";
         date := "2024-06-01";
         metrics_json := JObj [("views", JInt 7); ("likes", JInt 3)];
         topic := "" |};
      {| id := 3; platform := "youtube"; post_id := "abc123";
         date := "2024-06-01";
         metrics_json := JObj [("views", JInt 25); ("likes", JInt 3)];
         topic := "" |} ].
Proof. vm_compute. reflexivity. Qed.

Lemma store_metrics_one_row_per_triple_witness :
  rows_of (store_metrics (run_calls (_init_db None) demo_calls)
                         "2024-06-01" "youtube" "abc123" (views 25) "").2
          ("youtube", "abc123", "2024-06-01")
  = [ {| id := performance_seq (run_calls (_init_db None) demo_calls) + 1;
         platform := "youtube"; post_id := "abc123"; date := "2024-06-01";
         metrics_json := JObj [("views", JInt 25); ("likes", JInt 3)];
         topic := "" |} ].
Proof.
  apply (store_metrics_one_row_per_triple demo_calls
           "2024-06-01" "youtube" "abc123" (views 25) ""
           (JObj [("views", JInt 25); ("likes", JInt 3)])).
  reflexivity.
Defined.

End AnalyticsAgent.

(** ** utils/file_manager.py: further properties of [deduplicate_files] *)

Module FileManagerMore.
Import FileManager.

(** Equalities between unions of singletons. *)
Ltac union_solver :=
  apply set_eq; intros ?;
  rewrite ?elem_of_union, ?elem_of_singleton; intuition congruence.

Section DedupMore.

Variable fs : Path → option (list Byte.byte).
Variable md5 : list Byte.byte → Digest.

Abbreviation file_hash := (FileManager.file_hash fs md5).
Abbreviation dedup_from := (FileManager.dedup_from fs md5).
Abbreviation deduplicate_files := (FileManager.deduplicate_files fs md5).

(** The hashes met in a list. *)
Definition hashes_of (paths : list Path) : gset Digest :=
  list_to_set (omap file_hash paths).

Lemma hashes_of_cons_some p h paths :
  file_hash p = Some h → hashes_of (p :: paths) = {[h]} ∪ hashes_of paths.
Proof. intros Hp. unfold hashes_of. simpl. by rewrite Hp. Qed.

Lemma hashes_of_cons_none p paths :
  file_hash p = None → hashes_of (p :: paths) = hashes_of paths.
Proof. intros Hp. unfold hashes_of. simpl. by rewrite Hp. Qed.

(** The loop over a concatenation: the second part starts from the hashes
    seen in the first. *)
Lemma dedup_from_app seen l1 l2 :
  dedup_from seen (l1 ++ l2)
  = dedup_from seen l1 ++ dedup_from (seen ∪ hashes_of l1) l2.
Proof.
  revert seen. induction l1 as [|p l1 IH]; intros seen.
  - simpl. unfold hashes_of. simpl. by rewrite (right_id_L ∅ (∪)).
  - simpl. destruct (file_hash p) as [h|] eqn:Hp.
    + rewrite (hashes_of_cons_some _ _ _ Hp). case_decide as Hin.
      * rewrite IH. do 2 f_equal. union_solver.
      * simpl. rewrite IH. do 3 f_equal. union_solver.
    + rewrite (hashes_of_cons_none _ _ Hp). simpl. by rewrite IH.
Qed.

(** After a pass, the hashes seen are those of the input. *)
Lemma hashes_of_dedup_from seen paths :
  seen ∪ hashes_of (dedup_from seen paths) = seen ∪ hashes_of paths.
Proof.
  revert seen. induction paths as [|p paths IH]; intros seen; [done|].
  simpl. destruct (file_hash p) as [h|] eqn:Hp.
  - rewrite (hashes_of_cons_some _ _ _ Hp). case_decide as Hin.
    + rewrite IH. union_solver.
    + rewrite (hashes_of_cons_some _ _ _ Hp).
      rewrite !(assoc_L (∪)), (comm_L (∪) seen {[h]}). apply IH.
  - by rewrite !(hashes_of_cons_none _ _ Hp), IH.
Qed.

Lemma dedup_from_twice seen paths :
  dedup_from seen (dedup_from seen paths) = dedup_from seen paths.
Proof.
  apply dedup_from_id.
  - apply dedup_from_NoDup.
  - intros h. apply dedup_from_fresh.
Qed.

(** The caller [collect_all_images] deduplicates, extends the result with
    further downloads and deduplicates again: the first pass does not change
    what the second returns. *)
Theorem deduplicate_files_after_extend (paths extra : list Path) :
  deduplicate_files (deduplicate_files paths ++ extra)
  = deduplicate_files (paths ++ extra).
Proof.
  rewrite !deduplicate_files_from, !dedup_from_app, dedup_from_twice.
  f_equal. by rewrite hashes_of_dedup_from.
Qed.

(** Nothing is removed exactly when no two hashable files share a hash. *)
Theorem deduplicate_files_unchanged_iff (paths : list Path) :
  deduplicate_files paths = paths ↔ NoDup (omap file_hash paths).
Proof.
  rewrite deduplicate_files_from. split.
  - intros <-. apply dedup_from_NoDup.
  - intros Hnd. apply dedup_from_id; [done|].
    intros h _. apply not_elem_of_empty.
Qed.

End DedupMore.

End FileManagerMore.

(** ** agents/trend_agent.py: further properties of the ranking *)

Module TrendAgentMore.
Import Py TrendAgent.
Local Open Scope Z_scope.

(** The candidates with their final scores, as the second loop leaves them
    in [ranked_items]. *)
Definition scored_items (flat : list topic_dict) : result (list ranked_item) :=
  bind (score_loop flat ∅ ∅) (λ '(word_counter, topic_scores),
    mapM (rank_item word_counter topic_scores) flat).

(** The comparison key of a ranked item. *)
Definition item_key (item : ranked_item) : string :=
  comparison_key (r_topic item).

(** The results of the five connectors after [asyncio.gather]: a list, or an
    exception (which [discover_all_trends] replaces by the empty list). *)
Inductive gathered :=
| Fetched (topics : list topic_dict)
| Failed.

Definition or_empty (r : gathered) : list topic_dict :=
  match r with
  | Fetched topics => topics
  | Failed => []
  end.

Section Discovery.

Variable location : Config.location.

(** [discover_all_trends], from the gathered results on: the five lists are
    stored under their source names, ranked, and the ranking is stored under
    ["ranked"]. *)
Definition discover_all_trends (google reddit youtube news duckduckgo : gathered)
  : result trends :=
  let all_trends :=
    [("google", TopicList (or_empty google));
     ("reddit", TopicList (or_empty reddit));
     ("youtube", TopicList (or_empty youtube));
     ("news", TopicList (or_empty news));
     ("duckduckgo", TopicList (or_empty duckduckgo))] in
  bind (analyze_and_rank_trends location all_trends) (λ ranked,
    Ok (all_trends ++ [("ranked", TopicList ranked)])).

End Discovery.

(** *** What the loops raise *)







Lemma as_str_ok v t : as_str v = Ok t → v = PyStr t.
Proof. destruct v; simpl; congruence. Qed.

Lemma as_str_ok_topic c t : as_str (get_topic c) = Ok t → str_topic c.
Proof.
  unfold get_topic, str_topic. destruct (topic c) as [[| | |]|]; simpl; done.
Qed.











Lemma score_loop_str_topics flat : ∀ wc ts r,
  score_loop flat wc ts = Ok r → Forall str_topic flat.
Proof.
  induction flat as [|c flat IH]; intros wc ts r; [constructor|].
  cbn [score_loop].
  destruct (as_str (get_topic c)) as [t|e1] eqn:Ht; cbn [bind]; [|done].
  destruct (add_score _ (get_score c)) as [total|e2]; cbn [bind]; [|done].
  intros Hrest. constructor; [by eapply as_str_ok_topic|by eapply IH].
Qed.

(** *** Deduplication by key *)

Lemma first_by_key_sublist items : ∀ seen,
  sublist (first_by_key seen items) items.
Proof.
  induction items as [|item items IH]; intros seen; simpl; [constructor|].
  case_decide; by constructor.
Qed.

Lemma first_by_key_fresh items : ∀ seen item,
  item ∈ first_by_key seen items → item_key item ∉ seen.
Proof.
  induction items as [|x items IH]; intros seen item; simpl.
  - by intros ?%elem_of_nil.
  - case_decide as Hx; [by apply IH|].
    intros [->|Hin]%elem_of_cons; [done|].
    apply IH in Hin. intros Hk. apply Hin. by right.
Qed.

Lemma first_by_key_NoDup items : ∀ seen,
  NoDup (item_key <$> first_by_key seen items).
Proof.
  induction items as [|x items IH]; intros seen; simpl; [constructor|].
  case_decide as Hx; [by apply IH|].
  rewrite fmap_cons. constructor; [|by apply IH].
  intros (y & Hy & Hin)%list_elem_of_fmap.
  apply first_by_key_fresh in Hin. apply Hin. rewrite <- Hy. by left.
Qed.

Lemma StronglySorted_sublist {A} (R : relation A) (l1 l2 : list A) :
  sublist l1 l2 → StronglySorted R l2 → StronglySorted R l1.
Proof.
  induction 1 as [|x l1 l2 Hsub IH|x l1 l2 Hsub IH]; intros Hs.
  - constructor.
  - apply StronglySorted_inv in Hs as [Hs Hx].
    constructor; [by apply IH|].
    apply Forall_forall. intros y Hy. rewrite Forall_forall in Hx.
    apply Hx. by eapply elem_of_sublist.
  - apply StronglySorted_inv in Hs as [Hs _]. by apply IH.
Qed.

Lemma sublist_NoDup_fmap {A B} (f : A → B) (l1 l2 : list A) :
  sublist l1 l2 → NoDup (f <$> l2) → NoDup (f <$> l1).
Proof.
  induction 1 as [|x l1 l2 Hsub IH|x l1 l2 Hsub IH]; rewrite ?fmap_cons.
  - done.
  - intros [Hx Hnd]%NoDup_cons. constructor; [|by apply IH].
    intros (y & Hy & Hin)%list_elem_of_fmap. apply Hx.
    apply list_elem_of_fmap. exists y. split; [done|].
    by eapply elem_of_sublist.
  - intros [_ Hnd]%NoDup_cons. by apply IH.
Qed.

Lemma first_by_key_covers items : ∀ (seen : list string) x,
  x ∈ items →
  item_key x ∈ seen ∨ item_key x ∈ item_key <$> first_by_key seen items.
Proof.
  induction items as [|y items IH]; intros seen x; simpl.
  - by intros ?%elem_of_nil.
  - intros [->|Hin]%elem_of_cons.
    + case_decide as Hy; [by left|]. right. rewrite fmap_cons. by left.
    + case_decide as Hy; [by apply IH|].
      destruct (IH (comparison_key (r_topic y) :: seen) x Hin) as [Hs|Hk].
      * apply elem_of_cons in Hs as [Heq|Hs]; [|by left].
        right. rewrite fmap_cons. apply elem_of_cons. left. exact Heq.
      * right. rewrite fmap_cons. by right.
Qed.

(** *** The ranked items *)

Lemma rank_item_fields wc ts c item :
  rank_item wc ts c = Ok item →
  get_topic c = PyStr (r_topic item) ∧ r_source item = get_source c.
Proof.
  unfold rank_item.
  destruct (as_str (get_topic c)) as [t|e1] eqn:Ht; cbn [bind]; [|done].
  destruct (num_add _ _) as [final|e2]; cbn [bind]; [|done].
  intros [= <-]. simpl. split; [by apply as_str_ok|done].
Qed.

Lemma scored_items_candidates flat scored :
  scored_items flat = Ok scored →
  Forall2 (λ c item, get_topic c = PyStr (r_topic item)
                     ∧ r_source item = get_source c)
          flat scored.
Proof.
  unfold scored_items. destruct (score_loop flat ∅ ∅) as [[wc ts]|e]; [|done].
  cbn [bind]. intros Hmap%mapM_length.
  eapply Forall2_impl; [exact Hmap|]. intros c item. apply rank_item_fields.
Qed.

(** With integer scores every final score is an integer. *)
Lemma scored_items_int flat scored :
  Forall int_scored flat →
  scored_items flat = Ok scored → Forall int_item scored.
Proof.
  intros Hint. unfold scored_items.
  destruct (score_loop flat ∅ ∅) as [[wc ts]|e] eqn:Hloop; [|done].
  pose proof (score_loop_str_topics _ _ _ _ Hloop) as Hstr.
  destruct (score_loop_ok flat ∅ ∅ Hstr Hint) as (wc' & ts' & Hloop' & _).
  rewrite fmap_empty, Hloop in Hloop'.
  assert (wc' = wc ∧ Int <$> ts' = ts) as [-> <-] by (split; congruence).
  cbn [bind].
  destruct (mapM_rank_item_int wc ts' flat Hstr) as (items & -> & _ & Hitems).
  by intros [= <-].
Qed.

(** What a ranking of a non-empty candidate list returns. *)
Lemma analyze_nonempty location all_trends c flat ranked :
  flatten all_trends = c :: flat →
  analyze_and_rank_trends location all_trends = Ok ranked →
  ∃ scored,
    scored_items (c :: flat) = Ok scored
    ∧ ranked = to_dict <$> take 3 (first_by_key [] (sorted_desc scored)).
Proof.
  intros Hflat. unfold analyze_and_rank_trends, scored_items. rewrite Hflat.
  destruct (score_loop (c :: flat) ∅ ∅) as [[wc ts]|e]; [|done].
  cbn [bind].
  destruct (mapM (rank_item wc ts) (c :: flat)) as [items|e] eqn:Hmap; [|done].
  cbn [bind]. rewrite ranking_of_items.
  - intros [= <-]. by eexists.
  - apply mapM_length in Hmap. intros ->. by apply Forall2_nil_inv_r in Hmap.
Qed.




(** With integer scores, a ranking that returns gives at most three
    entries, each with a text topic and an integer score.  On a non-empty
    candidate list the entries are scored candidates, in descending order
    of score, with pairwise distinct comparison keys; no candidate has a
    greater score than the first; and fewer than three entries are returned
    only when every candidate's key is among them. *)
Theorem ranking_shape (location : Config.location) (all_trends : trends)
        (ranked : list topic_dict) :
  Forall int_scored (flatten all_trends) →
  analyze_and_rank_trends location all_trends = Ok ranked →
  (length ranked <= 3)%nat
  ∧ Forall (λ d, (∃ t, topic d = Some (PyStr t))
                 ∧ ∃ z, score d = Some (PyInt z)) ranked
  ∧ (flatten all_trends ≠ [] →
     ∃ scored top others,
       scored_items (flatten all_trends) = Ok scored
       ∧ Forall2 (λ c item, get_topic c = PyStr (r_topic item)
                            ∧ r_source item = get_source c)
                 (flatten all_trends) scored
       ∧ Forall (λ item, ∃ z, r_score item = Int z) scored
       ∧ ranked = to_dict <$> top :: others
       ∧ sublist (top :: others) (sorted_desc scored)
       ∧ StronglySorted score_ge (top :: others)
       ∧ NoDup (item_key <$> top :: others)
       ∧ (∀ x, x ∈ scored → score_ge top x)
       ∧ ((length (top :: others) < 3)%nat →
          ∀ x, x ∈ scored → item_key x ∈ item_key <$> top :: others)).
Proof.
  intros Hint Hrun. destruct (flatten all_trends) as [|c flat] eqn:Hflat.
  - unfold analyze_and_rank_trends in Hrun. rewrite Hflat in Hrun.
    injection Hrun as <-. split; [rewrite length_fmap, length_take; lia|].
    split; [|done]. apply Forall_fmap, Forall_forall. intros kw _. simpl.
    split; [by eexists|by eexists].
  - destruct (analyze_nonempty _ _ _ _ _ Hflat Hrun) as (scored & Hscored & ->).
    pose proof (scored_items_candidates _ _ Hscored) as Hcand.
    pose proof (scored_items_int _ _ Hint Hscored) as Hitems.
    set (kept := first_by_key [] (sorted_desc scored)).
    assert (sublist (take 3 kept) (sorted_desc scored)) as Hsub.
    { etrans; [apply sublist_take|apply first_by_key_sublist]. }
    split; [rewrite length_fmap, length_take; lia|].
    split.
    { apply Forall_fmap, Forall_forall. intros item Hitem. simpl.
      split; [by eexists|].
      assert (item ∈ scored) as Hin.
      { rewrite <- (sorted_desc_perm scored).
        eapply elem_of_sublist; [exact Hitem|exact Hsub]. }
      rewrite Forall_forall in Hitems.
      destruct (int_item_score item (Hitems item Hin)) as (z & -> & _).
      by eexists. }
    intros _.
    destruct (sorted_desc scored) as [|h rest] eqn:Hsorted.
    { apply sorted_desc_nil in Hsorted. subst scored.
      apply Forall2_nil_inv_r in Hcand. done. }
    assert (take 3 kept = h :: take 2 (first_by_key [item_key h] rest)) as Htake.
    { subst kept. rewrite first_by_key_cons_ne by apply not_elem_of_nil. done. }
    exists scored, h, (take 2 (first_by_key [item_key h] rest)).
    rewrite <- Htake, Hsorted.
    split; [done|]. split; [done|]. split.
    { eapply Forall_impl; [exact Hitems|]. intros item Hitem.
      destruct (int_item_score item Hitem) as (z & -> & _). by eexists. }
    split; [done|]. split; [done|].
    split.
    { eapply StronglySorted_sublist; [exact Hsub|].
      rewrite <- Hsorted. by apply sorted_desc_sorted. }
    split.
    { eapply sublist_NoDup_fmap; [apply sublist_take|].
      apply first_by_key_NoDup. }
    split; [by apply sorted_desc_head with rest|].
    intros Hshort x Hx.
    assert (length kept < 3)%nat as Hkept
      by (rewrite length_take in Hshort; lia).
    rewrite take_ge by lia. subst kept.
    destruct (first_by_key_covers (h :: rest) [] x) as [Hs|Hk]; [| |done].
    + rewrite <- Hsorted. by rewrite sorted_desc_perm.
    + by apply elem_of_nil in Hs.
Qed.

Lemma ranking_shape_witness :
  ∃ scored top others,
    scored_items (flatten tunis_beaches_input) = Ok scored
    ∧ Forall2 (λ c item, get_topic c = PyStr (r_topic item)
                         ∧ r_source item = get_source c)
              (flatten tunis_beaches_input) scored
    ∧ Forall (λ item, ∃ z, r_score item = Int z) scored
    ∧ [ {| topic := Some (PyStr "Tunis beaches"); score := Some (PyInt 84);
           source := Some (PyStr "unknown") |};
        {| topic := Some (PyStr "Tunis beaches are amazing");
           score := Some (PyInt 65);
           source := Some (PyStr "unknown") |} ] = to_dict <$> top :: others
    ∧ sublist (top :: others) (sorted_desc scored)
    ∧ StronglySorted score_ge (top :: others)
    ∧ NoDup (item_key <$> top :: others)
    ∧ (∀ x, x ∈ scored → score_ge top x)
    ∧ ((length (top :: others) < 3)%nat →
       ∀ x, x ∈ scored → item_key x ∈ item_key <$> top :: others).
Proof.
  apply (ranking_shape Config.LOCATION tunis_beaches_input).
  - repeat constructor.
  - vm_compute. reflexivity.
  - discriminate.
Defined.

Lemma analyze_and_rank_trends_short_topics_witness :
  ∃ sorted,
    stable_sorted_desc
      (spec_item (flatten tunis_beaches_input) <$> flatten tunis_beaches_input)
      sorted
    ∧ (∀ sorted',
         stable_sorted_desc
           (spec_item (flatten tunis_beaches_input)
              <$> flatten tunis_beaches_input) sorted' →
         sorted' = sorted)
    ∧ analyze_and_rank_trends Config.LOCATION tunis_beaches_input
      = Ok (to_dict <$> take 3 (first_by_key [] sorted)).
Proof.
  apply (analyze_and_rank_trends_short_topics Config.LOCATION tunis_beaches_input).
  - discriminate.
  - repeat constructor.
  - repeat constructor.
  - repeat constructor; vm_compute; lia.
Defined.

(** After [discover_all_trends], [get_best_topic] returns the first
    configured keyword when no connector delivered a candidate (and raises
    [IndexError] only when no keyword is configured either); otherwise,
    the scores being integers, it returns the topic of a candidate with the
    greatest final score. *)
Theorem best_topic_after_discovery (location : Config.location)
        (google reddit youtube news duckduckgo : gathered) (found : trends) :
  discover_all_trends location google reddit youtube news duckduckgo = Ok found →
  let flat := or_empty google ++ or_empty reddit ++ or_empty youtube
              ++ or_empty news ++ or_empty duckduckgo in
  (flat = [] →
   get_best_topic location found
   = match Config.keywords location with
     | kw :: _ => Ok (PyStr kw)
     | [] => Raise IndexError
     end)
  ∧ (flat ≠ [] → Forall int_scored flat →
     ∃ scored best,
       scored_items flat = Ok scored
       ∧ best ∈ scored
       ∧ (∀ x, x ∈ scored →
            ∃ zx zb, r_score x = Int zx ∧ r_score best = Int zb ∧ zx <= zb)
       ∧ (∃ c, c ∈ flat ∧ get_topic c = PyStr (r_topic best))
       ∧ get_best_topic location found = Ok (PyStr (r_topic best))).
Proof.
  intros Hrun flat. unfold discover_all_trends in Hrun.
  set (all_trends := [("google", _); _; _; _; _]) in Hrun.
  assert (flatten all_trends = flat) as Hflat.
  { subst all_trends flat. simpl. by rewrite app_nil_r. }
  destruct (analyze_and_rank_trends location all_trends) as [ranked|e] eqn:Hrank;
    [|done].
  assert (found = all_trends ++ [("ranked", TopicList ranked)]) as ->
    by (unfold bind in Hrun; congruence).
  assert (get_best_topic location (all_trends ++ [("ranked", TopicList ranked)])
          = match ranked with
            | first :: _ => match topic first with
                            | Some t => Ok t
                            | None => Raise KeyError
                            end
            | [] => match Config.keywords location with
                    | kw :: _ => Ok (PyStr kw)
                    | [] => Raise IndexError
                    end
            end) as ->.
  { reflexivity. }
  split.
  - intros Hempty. unfold analyze_and_rank_trends in Hrank.
    rewrite Hflat, Hempty in Hrank.
    assert (ranked = default_entry <$> take 3 (Config.keywords location)) as ->
      by congruence.
    by destruct (Config.keywords location).
  - intros Hne Hint. destruct flat as [|c rest] eqn:Hfl; [done|].
    destruct (analyze_nonempty _ _ _ _ _ Hflat Hrank) as (scored & Hscored & ->).
    pose proof (scored_items_candidates _ _ Hscored) as Hcand.
    pose proof (scored_items_int _ _ Hint Hscored) as Hitems.
    destruct (sorted_desc scored) as [|h others] eqn:Hsorted.
    { apply sorted_desc_nil in Hsorted. subst scored.
      apply Forall2_nil_inv_r in Hcand. done. }
    assert (h ∈ scored) as Hh.
    { rewrite <- (sorted_desc_perm scored), Hsorted. by left. }
    exists scored, h. split; [done|]. split; [done|].
    split.
    { intros x Hx. rewrite Forall_forall in Hitems.
      destruct (int_item_score x (Hitems x Hx)) as (zx & Hzx & _).
      destruct (int_item_score h (Hitems h Hh)) as (zh & Hzh & _).
      exists zx, zh. split; [done|]. split; [done|].
      apply (score_ge_int h x zh zx Hzh Hzx).
      rewrite <- Forall_forall in Hitems.
      by apply (sorted_desc_head scored h others). }
    split.
    + apply list_elem_of_lookup in Hh as [i Hi].
      destruct (Forall2_lookup_r _ _ _ _ _ Hcand Hi) as (c' & Hc' & Ht & _).
      exists c'. split; [|done]. apply list_elem_of_lookup. eauto.
    + rewrite first_by_key_cons_ne by apply not_elem_of_nil. done.
Qed.

Lemma best_topic_after_discovery_witness :
  get_best_topic Config.LOCATION
    [("google", TopicList []); ("reddit", TopicList []);
     ("youtube", TopicList []); ("news", TopicList []);
     ("duckduckgo", TopicList []);
     ("ranked", TopicList [default_entry "Tunis travel";
                           default_entry "Tunisia tourism";
                           default_entry "visit Tunis"])]
  = Ok (PyStr "Tunis travel")
  ∧ ∃ scored best,
      scored_items (flatten tunis_beaches_input) = Ok scored
      ∧ best ∈ scored
      ∧ (∀ x, x ∈ scored →
           ∃ zx zb, r_score x = Int zx ∧ r_score best = Int zb ∧ zx <= zb)
      ∧ (∃ c, c ∈ flatten tunis_beaches_input
              ∧ get_topic c = PyStr (r_topic best))
      ∧ get_best_topic Config.LOCATION
          [("google", TopicList [{| topic := Some (PyStr "Tunis beaches");
                                    score := Some (PyInt 80);
                                    source := None |}]);
           ("reddit", TopicList [{| topic := Some (PyStr "Tunis beaches are amazing");
                                    score := Some (PyInt 60);
                                    source := None |}]);
           ("youtube", TopicList []); ("news", TopicList []);
           ("duckduckgo", TopicList []);
           ("ranked", TopicList
              [{| topic := Some (PyStr "Tunis beaches");
                  score := Some (PyInt 84);
                  source := Some (PyStr "unknown") |};
               {| topic := Some (PyStr "Tunis beaches are amazing");
                  score := Some (PyInt 65);
                  source := Some (PyStr "unknown") |}])]
        = Ok (PyStr (r_topic best)).
Proof.
  split.
  - apply (best_topic_after_discovery Config.LOCATION
             (Fetched []) Failed (Fetched []) Failed Failed);
      reflexivity.
  - apply (best_topic_after_discovery Config.LOCATION
             (Fetched [{| topic := Some (PyStr "Tunis beaches");
                          score := Some (PyInt 80); source := None |}])
             (Fetched [{| topic := Some (PyStr "Tunis beaches are amazing");
                          score := Some (PyInt 60); source := None |}])
             (Fetched []) Failed Failed).
    + vm_compute. reflexivity.
    + discriminate.
    + repeat constructor.
Defined.

End TrendAgentMore.

(** ** agents/trend_agent.py: [get_best_hashtags] *)

Module TrendHashtags.
Import Py TrendAgent.

(** The dictionary returned: one hashtag list per platform. *)
Record platform_hashtags := {
  instagram : list string;
  youtube : list string;
  tiktok : list string;
  facebook : list string
}.

(** The characters removed by [word.strip]: full stop, comma, exclamation
    mark, question mark, double quote (code 34) and apostrophe. *)
Definition strip_chars : list ascii :=
  ["."%char; ","%char; "!"%char; "?"%char; ascii_of_N 34; "'"%char].

Definition is_stripped (c : ascii) : bool :=
  existsb (Ascii.eqb c) strip_chars.

Fixpoint lstrip (s : string) : string :=
  match s with
  | String c rest => if is_stripped c then lstrip rest else s
  | EmptyString => EmptyString
  end.

Fixpoint rstrip (s : string) : string :=
  match s with
  | EmptyString => EmptyString
  | String c rest =>
      let rest' := rstrip rest in
      if is_stripped c && String.eqb rest' "" then EmptyString
      else String c rest'
  end.

Definition strip (s : string) : string := rstrip (lstrip s).

(** [s.replace(" ", "")] *)
Fixpoint remove_spaces (s : string) : string :=
  match s with
  | EmptyString => EmptyString
  | String c rest =>
      if Ascii.eqb c " " then remove_spaces rest
      else String c (remove_spaces rest)
  end.

(** The word stripped of those characters at both ends, then without
    spaces. *)
Definition clean_word (word : string) : string := remove_spaces (strip word).

(** [list(dict.fromkeys(l))]: the first occurrence of each element, in
    order. *)
Fixpoint fromkeys_from (seen : gset string) (l : list string) : list string :=
  match l with
  | [] => []
  | x :: rest =>
      if decide (x ∈ seen) then fromkeys_from seen rest
      else x :: fromkeys_from ({[x]} ∪ seen) rest
  end.

Definition fromkeys (l : list string) : list string := fromkeys_from ∅ l.

Section Hashtags.

Variable location : Config.location.

(** [str.capitalize]: its case mapping leaves the range of characters
    modelled (the capital of U+00FF is U+0178), so it is a parameter. *)
Variable capitalize : string → string.

(** The inner loop over the words of one topic. *)
Definition tags_of_topic (t : string) : list string :=
  (λ clean, "#" +:+ capitalize clean)
    <$> filter (λ clean, (3 < String.length clean)%nat) (clean_word <$> split t).

(** The loop over [trends[:3]]; [item["topic"]] raises [KeyError] when the
    key is missing, and [.split()] raises [AttributeError] when the topic
    is not a [str]. *)
Fixpoint trend_tags_of (items : list topic_dict) : result (list string) :=
  match items with
  | [] => Ok []
  | item :: rest =>
      match topic item with
      | None => Raise KeyError
      | Some v =>
          bind (as_str v) (λ t,
            bind (trend_tags_of rest) (λ tags, Ok (tags_of_topic t ++ tags)))
      end
  end.

Definition get_best_hashtags (trends : list topic_dict) : result platform_hashtags :=
  let base_tags := Config.hashtags location in
  bind (trend_tags_of (take 3 trends)) (λ trend_tags,
    let all_tags := fromkeys (base_tags ++ trend_tags) in
    Ok {| instagram := take 30 all_tags;
          youtube := take 15 all_tags;
          tiktok := take 10 all_tags;
          facebook := take 5 all_tags |}).

(** *** [dict.fromkeys] *)

Lemma fromkeys_from_fresh l : ∀ seen x,
  x ∈ fromkeys_from seen l → (x ∉ seen) ∧ (x ∈ l).
Proof.
  induction l as [|y l IH]; intros seen x; simpl.
  - by intros ?%elem_of_nil.
  - case_decide as Hy.
    + intros [? ?]%IH. split; [done|by right].
    + intros [->|Hin]%elem_of_cons; [split; [done|by left]|].
      apply IH in Hin as [Hs Hl]. split; [|by right].
      intros Hx. apply Hs. apply elem_of_union. by right.
Qed.

Lemma fromkeys_from_NoDup l : ∀ seen, NoDup (fromkeys_from seen l).
Proof.
  induction l as [|y l IH]; intros seen; simpl; [constructor|].
  case_decide as Hy; [by apply IH|].
  constructor; [|by apply IH].
  intros [Hs _]%fromkeys_from_fresh. apply Hs, elem_of_union. left.
  by apply elem_of_singleton.
Qed.

(** Distinct elements not seen before are all kept, and the rest of the
    list continues from them. *)
Lemma fromkeys_from_app_NoDup base : ∀ seen extra,
  NoDup base → (∀ x, x ∈ base → x ∉ seen) →
  ∃ kept, fromkeys_from seen (base ++ extra) = base ++ kept.
Proof.
  induction base as [|y base IH]; intros seen extra Hnd Hfresh; simpl.
  - by eexists.
  - apply NoDup_cons in Hnd as [Hy Hnd].
    rewrite decide_False by (apply Hfresh; by left).
    destruct (IH ({[y]} ∪ seen) extra Hnd) as [kept ->]; [|by eexists].
    intros x Hx [->%elem_of_singleton|Hs]%elem_of_union; [done|].
    by apply (Hfresh x); [right|].
Qed.

(** *** The loop over the topics *)

(** The entry has a topic and the topic is a text. *)
Definition has_text_topic (d : topic_dict) : Prop :=
  ∃ t, topic d = Some (PyStr t).

Lemma has_text_topic_dec d : has_text_topic d ∨ ¬ has_text_topic d.
Proof.
  unfold has_text_topic. destruct (topic d) as [[| | |t]|];
    try (right; intros [? ?]; done).
  left. by eexists.
Qed.

Lemma trend_tags_of_text items :
  Forall has_text_topic items → ∃ tags, trend_tags_of items = Ok tags.
Proof.
  induction 1 as [|d items [t Ht] _ [tags IH]]; simpl; [by eexists|].
  rewrite Ht, IH. simpl. by eexists.
Qed.

(** The first entry without a text topic decides the exception. *)
Lemma trend_tags_of_first_bad pre d post :
  Forall has_text_topic pre →
  (topic d = None → trend_tags_of (pre ++ d :: post) = Raise KeyError)
  ∧ (∀ v, topic d = Some v → (∀ t, v ≠ PyStr t) →
          trend_tags_of (pre ++ d :: post) = Raise AttributeError).
Proof.
  induction 1 as [|x pre [t Ht] _ [IHk IHa]]; simpl.
  - split.
    + by intros ->.
    + intros v -> Hv. destruct v; simpl; try done. by destruct (Hv s).
  - rewrite Ht. simpl. split.
    + intros Hd. by rewrite IHk.
    + intros v Hd Hv. by rewrite (IHa v).
Qed.

Lemma trend_tags_of_cases items :
  (Forall has_text_topic items ∧ ∃ tags, trend_tags_of items = Ok tags)
  ∨ (Exists (λ d, ¬ has_text_topic d) items
     ∧ (trend_tags_of items = Raise KeyError
        ∨ trend_tags_of items = Raise AttributeError)).
Proof.
  assert (Forall has_text_topic items
          ∨ ∃ pre d post, items = pre ++ d :: post
                          ∧ Forall has_text_topic pre ∧ ¬ has_text_topic d)
    as [Hall|(pre & d & post & -> & Hpre & Hd)].
  { induction items as [|x items [IH|(pre & d & post & -> & Hpre & Hd)]].
    - left. constructor.
    - destruct (has_text_topic_dec x) as [Hx|Hx].
      + left. by constructor.
      + right. exists [], x, items. split; [done|]. split; [constructor|done].
    - destruct (has_text_topic_dec x) as [Hx|Hx].
      + right. exists (x :: pre), d, post. split; [done|].
        split; [by constructor|done].
      + right. exists [], x, (pre ++ d :: post). split; [done|].
        split; [constructor|done]. }
  - left. split; [done|]. by apply trend_tags_of_text.
  - right. split; [apply Exists_app; right; by left|].
    destruct (trend_tags_of_first_bad pre d post Hpre) as [Hk Ha].
    destruct (topic d) as [v|] eqn:Hv; [|left; by apply Hk].
    right. apply (Ha v); [done|]. intros t ->. apply Hd. by exists t.
Qed.

Lemma trend_tags_of_elem items tags tag :
  trend_tags_of items = Ok tags → tag ∈ tags →
  ∃ item t word,
    item ∈ items ∧ topic item = Some (PyStr t) ∧ word ∈ split t
    ∧ (3 < String.length (clean_word word))%nat
    ∧ tag = "#" +:+ capitalize (clean_word word).
Proof.
  revert tags. induction items as [|item items IH]; intros tags; simpl.
  - intros [= <-] ?%elem_of_nil. done.
  - destruct (topic item) as [[| | |t]|] eqn:Ht; try done. simpl.
    destruct (trend_tags_of items) as [tags'|] eqn:Htags; [|done].
    simpl. intros [= <-] [Hin|Hin]%elem_of_app.
    + unfold tags_of_topic in Hin.
      apply list_elem_of_fmap in Hin as (clean & -> & Hclean).
      apply list_elem_of_filter in Hclean as [Hlen Hclean].
      apply list_elem_of_fmap in Hclean as (word & -> & Hword).
      exists item, t, word. repeat split; try done. by left.
    + destruct (IH tags' eq_refl Hin) as (item' & t' & word & Hi & ? & ? & ? & ?).
      exists item', t', word. repeat split; try done. by right.
Qed.

(** When [get_best_hashtags] returns, the Instagram list has at most 30
    tags without repetition, the YouTube, TikTok and Facebook lists are its
    first 15, 10 and 5 tags, and every tag is a configured hashtag or "#"
    followed by the capitalised cleaned word (longer than 3 characters) of
    one of the first three topics. *)
Theorem get_best_hashtags_shape (trends : list topic_dict) (h : platform_hashtags) :
  get_best_hashtags trends = Ok h →
  (length (instagram h) <= 30)%nat
  ∧ youtube h = take 15 (instagram h)
  ∧ tiktok h = take 10 (instagram h)
  ∧ facebook h = take 5 (instagram h)
  ∧ NoDup (instagram h)
  ∧ (∀ tag, tag ∈ instagram h →
       tag ∈ Config.hashtags location
       ∨ ∃ item t word,
           item ∈ take 3 trends ∧ topic item = Some (PyStr t) ∧ word ∈ split t
           ∧ (3 < String.length (clean_word word))%nat
           ∧ tag = "#" +:+ capitalize (clean_word word)).
Proof.
  unfold get_best_hashtags.
  destruct (trend_tags_of (take 3 trends)) as [tags|e] eqn:Htags; [|done].
  simpl. intros Hh. assert (h = {|
    instagram := take 30 (fromkeys (Config.hashtags location ++ tags));
    youtube := take 15 (fromkeys (Config.hashtags location ++ tags));
    tiktok := take 10 (fromkeys (Config.hashtags location ++ tags));
    facebook := take 5 (fromkeys (Config.hashtags location ++ tags)) |}) as ->
    by congruence.
  clear Hh. simpl. rewrite !take_take. simpl.
  split; [rewrite length_take; lia|]. do 3 (split; [done|]). split.
  - eapply sublist_NoDup; [apply fromkeys_from_NoDup|apply sublist_take].
  - intros tag Hin. apply elem_of_take in Hin as (i & Hi & _).
    apply list_elem_of_lookup_2 in Hi.
    apply fromkeys_from_fresh in Hi as [_ [Hbase|Htag]%elem_of_app]; [by left|].
    right. by eapply trend_tags_of_elem.
Qed.

(** When the configured hashtags are pairwise distinct they come first:
    with at least 5 (10, 15) of them, the Facebook (TikTok, YouTube) list
    consists of configured hashtags only, whatever the trends are. *)
Theorem get_best_hashtags_base_first (trends : list topic_dict)
        (h : platform_hashtags) :
  NoDup (Config.hashtags location) →
  get_best_hashtags trends = Ok h →
  ((5 <= length (Config.hashtags location))%nat →
   facebook h = take 5 (Config.hashtags location))
  ∧ ((10 <= length (Config.hashtags location))%nat →
     tiktok h = take 10 (Config.hashtags location))
  ∧ ((15 <= length (Config.hashtags location))%nat →
     youtube h = take 15 (Config.hashtags location))
  ∧ take (length (Config.hashtags location)) (instagram h)
    = take 30 (Config.hashtags location).
Proof.
  intros Hnd. unfold get_best_hashtags.
  destruct (trend_tags_of (take 3 trends)) as [tags|e] eqn:Htags; [|done].
  simpl. intros Hh.
  destruct (fromkeys_from_app_NoDup (Config.hashtags location) ∅ tags Hnd)
    as [kept Hkept]; [intros x _; apply not_elem_of_empty|].
  unfold fromkeys in Hh. rewrite Hkept in Hh.
  assert (h = {|
    instagram := take 30 (Config.hashtags location ++ kept);
    youtube := take 15 (Config.hashtags location ++ kept);
    tiktok := take 10 (Config.hashtags location ++ kept);
    facebook := take 5 (Config.hashtags location ++ kept) |}) as ->
    by congruence.
  clear Hh. simpl.
  repeat split; try (intros Hlen; by rewrite take_app_le).
  rewrite take_take.
  destruct (decide (length (Config.hashtags location) <= 30)%nat) as [Hle|Hgt].
  - rewrite Nat.min_l by done. rewrite take_app_length.
    by rewrite take_ge.
  - rewrite Nat.min_r by lia. by rewrite take_app_le by lia.
Qed.

(** [get_best_hashtags] raises [KeyError] or [AttributeError] and nothing
    else, and it raises exactly when one of the first three entries has no
    topic or a topic that is not a text; later entries are not read.  The
    first such entry decides: [KeyError] when its topic is missing,
    [AttributeError] when its topic is not a text. *)
Theorem get_best_hashtags_exceptions (trends : list topic_dict) :
  (∀ e, get_best_hashtags trends = Raise e → e = KeyError ∨ e = AttributeError)
  ∧ ((∃ e, get_best_hashtags trends = Raise e)
     ↔ Exists (λ d, ¬ has_text_topic d) (take 3 trends))
  ∧ (∀ pre d post,
       take 3 trends = pre ++ d :: post → Forall has_text_topic pre →
       (topic d = None → get_best_hashtags trends = Raise KeyError)
       ∧ (∀ v, topic d = Some v → (∀ t, v ≠ PyStr t) →
               get_best_hashtags trends = Raise AttributeError)).
Proof.
  unfold get_best_hashtags. split; [|split].
  - destruct (trend_tags_of_cases (take 3 trends))
      as [[_ [tags ->]]|[_ [-> | ->]]]; simpl; [done| |];
      intros e [= <-]; tauto.
  - destruct (trend_tags_of_cases (take 3 trends))
      as [[Hall [tags ->]]|[Hex [-> | ->]]]; simpl.
    + split; [by intros [e ?]|].
      intros (d & Hd & Hnot)%Exists_exists. rewrite Forall_forall in Hall.
      exfalso. by apply Hnot, Hall.
    + split; [done|]. by eexists.
    + split; [done|]. by eexists.
  - intros pre d post -> Hpre.
    destruct (trend_tags_of_first_bad pre d post Hpre) as [Hk Ha]. split.
    + intros Hd. by rewrite Hk.
    + intros v Hd Hv. by rewrite (Ha v).
Qed.

End Hashtags.

(** [str.capitalize] on ASCII letters, for examples. *)
Definition upper_ascii (c : ascii) : ascii :=
  let n := N_of_ascii c in
  if ((97 <=? n) && (n <=? 122))%N then ascii_of_N (n - 32) else c.

Definition capitalize_ascii (s : string) : string :=
  match s with
  | EmptyString => EmptyString
  | String c rest => String (upper_ascii c) (lower rest)
  end.

(** The hashtags for the ranking of the two-source scenario. *)
Example get_best_hashtags_tunis :
  get_best_hashtags Config.LOCATION capitalize_ascii
    [ {| topic := Some (PyStr "Tunis beaches!"); score := Some (PyInt 84);
         source := Some (PyStr "unknown") |};
      {| topic := Some (PyStr "the 'Medina' at night"); score := Some (PyInt 65);
         source := Some (PyStr "unknown") |} ]
  = Ok {| instagram :=
            ["#Tunis"; "#Tunisia"; "#VisitTunisia"; "#NorthAfrica";
             "#travel"; "#tourism"; "#hiddengem"; "#travelgram";
             "#wanderlust"; "#travelafrica"; "#mediterraneanlife";
             "#Beaches"; "#Medina"; "#Night"];
          youtube :=
            ["#Tunis"; "#Tunisia"; "#VisitTunisia"; "#NorthAfrica";
             "#travel"; "#tourism"; "#hiddengem"; "#travelgram";
             "#wanderlust"; "#travelafrica"; "#mediterraneanlife";
             "#Beaches"; "#Medina"; "#Night"];
          tiktok :=
            ["#Tunis"; "#Tunisia"; "#VisitTunisia"; "#NorthAfrica";
             "#travel"; "#tourism"; "#hiddengem"; "#travelgram";
             "#wanderlust"; "#travelafrica"];
          facebook :=
            ["#Tunis"; "#Tunisia"; "#VisitTunisia"; "#NorthAfrica";
             "#travel"] |}.
Proof. vm_compute. reflexivity. Qed.

(** A ranking whose three topics give 24 tags, three of them twice and one
    of them a configured hashtag; a fourth entry, which is not read, has no
    topic. *)
Definition busy_ranking : list topic_dict :=
  [ {| topic := Some (PyStr "Tunis medina souks, spice markets, carpets, lanterns, ceramics and perfumes");
       score := Some (PyInt 90); source := Some (PyStr "news") |};
    {| topic := Some (PyStr "Carthage ruins: Roman baths, theatre, museum, harbour, villas and mosaics");
       score := Some (PyInt 80); source := Some (PyStr "reddit") |};
    {| topic := Some (PyStr "Sidi Said cafes, the medina, blue doors, jasmine, sunset terraces, mosaics, harbour");
       score := Some (PyInt 70); source := Some (PyStr "youtube") |};
    {| topic := None; score := Some (PyInt 60); source := None |} ].

Example get_best_hashtags_busy :
  (λ h, (length (instagram h), length (youtube h), length (tiktok h),
         length (facebook h), drop 11 (instagram h)))
    <$> match get_best_hashtags Config.LOCATION capitalize_ascii busy_ranking with
        | Ok h => Some h
        | Raise _ => None
        end
  = Some (30%nat, 15%nat, 10%nat, 5%nat,
          ["#Medina"; "#Souks"; "#Spice"; "#Markets"; "#Carpets"; "#Lanterns";
           "#Ceramics"; "#Perfumes"; "#Carthage"; "#Ruins:"; "#Roman"; "#Baths";
           "#Theatre"; "#Museum"; "#Harbour"; "#Villas"; "#Mosaics"; "#Sidi";
           "#Said"]).
Proof. vm_compute. reflexivity. Qed.

Lemma get_best_hashtags_shape_witness :
  ∃ h,
    get_best_hashtags Config.LOCATION capitalize_ascii busy_ranking = Ok h
    ∧ (length (instagram h) <= 30)%nat
    ∧ youtube h = take 15 (instagram h)
    ∧ tiktok h = take 10 (instagram h)
    ∧ facebook h = take 5 (instagram h)
    ∧ NoDup (instagram h)
    ∧ (∀ tag, tag ∈ instagram h →
         tag ∈ Config.hashtags Config.LOCATION
         ∨ ∃ item t word,
             item ∈ take 3 busy_ranking ∧ topic item = Some (PyStr t)
             ∧ word ∈ split t
             ∧ (3 < String.length (clean_word word))%nat
             ∧ tag = "#" +:+ capitalize_ascii (clean_word word)).
Proof.
  eexists. split; [vm_compute; reflexivity|].
  apply (get_best_hashtags_shape Config.LOCATION capitalize_ascii busy_ranking).
  vm_compute. reflexivity.
Defined.

Lemma get_best_hashtags_base_first_witness :
  ∃ h,
    get_best_hashtags Config.LOCATION capitalize_ascii busy_ranking = Ok h
    ∧ ((5 <= length (Config.hashtags Config.LOCATION))%nat →
       facebook h = take 5 (Config.hashtags Config.LOCATION))
    ∧ ((10 <= length (Config.hashtags Config.LOCATION))%nat →
       tiktok h = take 10 (Config.hashtags Config.LOCATION))
    ∧ ((15 <= length (Config.hashtags Config.LOCATION))%nat →
       youtube h = take 15 (Config.hashtags Config.LOCATION))
    ∧ take (length (Config.hashtags Config.LOCATION)) (instagram h)
      = take 30 (Config.hashtags Config.LOCATION).
Proof.
  eexists. split; [vm_compute; reflexivity|].
  apply (get_best_hashtags_base_first Config.LOCATION capitalize_ascii
           busy_ranking).
  - apply (bool_decide_unpack _). by vm_compute.
  - vm_compute. reflexivity.
Defined.

Lemma get_best_hashtags_exceptions_witness :
  get_best_hashtags Config.LOCATION capitalize_ascii
    [ {| topic := Some (PyStr "Tunis beaches"); score := None; source := None |};
      {| topic := Some PyNone; score := None; source := None |};
      {| topic := None; score := None; source := None |} ]
  = Raise AttributeError.
Proof.
  apply (get_best_hashtags_exceptions Config.LOCATION capitalize_ascii
           [ {| topic := Some (PyStr "Tunis beaches"); score := None;
                source := None |};
             {| topic := Some PyNone; score := None; source := None |};
             {| topic := None; score := None; source := None |} ])
    with (pre := [ {| topic := Some (PyStr "Tunis beaches"); score := None;
                      source := None |} ])
         (d := {| topic := Some PyNone; score := None; source := None |})
         (post := [ {| topic := None; score := None; source := None |} ])
         (v := PyNone).
  - reflexivity.
  - repeat constructor. by eexists.
  - reflexivity.
  - discriminate.
Defined.

End TrendHashtags.

(** ** agents/publisher_agent.py: further properties of the publishers *)

Module PublisherAgentMore.
Import PublisherAgent.
Local Open Scope Z_scope.

Section PublishersMore.

Variable config : credentials.
Variable transport : list event → string → option response.
Variable readable : string → bool.
Variable max_chunks : nat.
Variable ig_polls : nat.
Variable youtube_upload_url : string.
Variable youtube_thumbnail_url : string.

Abbreviation publish_to_youtube :=
  (PublisherAgent.publish_to_youtube config transport readable max_chunks
     youtube_upload_url youtube_thumbnail_url).
Abbreviation publish_to_instagram :=
  (PublisherAgent.publish_to_instagram config transport ig_polls).
Abbreviation publish_to_facebook :=
  (PublisherAgent.publish_to_facebook config transport readable).
Abbreviation publish_to_telegram :=
  (PublisherAgent.publish_to_telegram config transport readable).

Abbreviation telegram_channel := (PublisherAgent.telegram_channel config).

(** The retry loop catches every exception of its body. *)
Lemma attempt_loop_catches {A} platform (body : M A) attempts :
  ∀ tr e tr', attempt_loop platform body attempts tr ≠ (Raised e, tr').
Proof.
  induction attempts as [|attempt rest IH]; intros tr e tr'.
  - cbn [attempt_loop]. unfold bindM, emit, ret. done.
  - cbn [attempt_loop]. destruct (body tr) as [[a|e0|] tr1]; [done| |done].
    unfold bindM, sleep, emit, ret.
    destruct (attempt <? MAX_RETRIES); apply IH.
Qed.

(** Whatever the transport does, no publisher raises: each returns a link,
    returns [None], or is still inside an upload loop. *)
Theorem publishers_never_raise (video_path : string)
        (thumbnail_path channel_id : option string)
        (tr tr' : list event) (e : exn) :
  publish_to_youtube video_path thumbnail_path tr ≠ (Raised e, tr')
  ∧ publish_to_instagram tr ≠ (Raised e, tr')
  ∧ publish_to_facebook video_path tr ≠ (Raised e, tr')
  ∧ publish_to_telegram video_path channel_id tr ≠ (Raised e, tr').
Proof.
  unfold PublisherAgent.publish_to_youtube, PublisherAgent.publish_to_instagram,
    PublisherAgent.publish_to_facebook, PublisherAgent.publish_to_telegram,
    with_retries.
  repeat split;
    match goal with
    | |- (if ?b then _ else _) _ ≠ _ =>
        destruct b; [done|apply attempt_loop_catches]
    end.
Qed.

(** A publisher whose credentials are incomplete returns [None] at once:
    no request is sent and nothing is slept. *)
Theorem publishers_skip_without_credentials (video_path : string)
        (thumbnail_path channel_id : option string) (tr : list event) :
  (truthy (YOUTUBE_CLIENT_ID config) = false
   ∨ truthy (YOUTUBE_CLIENT_SECRET config) = false
   ∨ truthy (YOUTUBE_REFRESH_TOKEN config) = false →
   publish_to_youtube video_path thumbnail_path tr = (Returned None, tr))
  ∧ (truthy (INSTAGRAM_ACCESS_TOKEN config) = false
     ∨ truthy (INSTAGRAM_PAGE_ID config) = false →
     publish_to_instagram tr = (Returned None, tr))
  ∧ (truthy (FACEBOOK_ACCESS_TOKEN config) = false
     ∨ truthy (FACEBOOK_PAGE_ID config) = false →
     publish_to_facebook video_path tr = (Returned None, tr))
  ∧ (truthy (TELEGRAM_BOT_TOKEN config) = false
     ∨ truthy (telegram_channel channel_id) = false →
     publish_to_telegram video_path channel_id tr = (Returned None, tr)).
Proof.
  unfold PublisherAgent.publish_to_youtube, PublisherAgent.publish_to_instagram,
    PublisherAgent.publish_to_facebook, PublisherAgent.publish_to_telegram.
  fold (telegram_channel channel_id).
  repeat split.
  - intros [-> | [-> | ->]]; rewrite ?andb_false_r; done.
  - intros [-> | ->]; rewrite ?andb_false_r; done.
  - intros [-> | ->]; rewrite ?andb_false_r; done.
  - intros [-> | ->]; rewrite ?orb_true_r; done.
Qed.

(** A Telegram attempt sends the video and then pins the message inside the
    same [try]: when sending succeeds and pinning fails every time, the
    video is sent again on each retry, three times in all, and [None] is
    returned. *)
Theorem telegram_resends_when_pin_fails (video_path : string)
        (channel_id : option string) (tr : list event) :
  readable video_path = true →
  truthy (TELEGRAM_BOT_TOKEN config) = true →
  truthy (telegram_channel channel_id) = true →
  (∀ tr0, ∃ r d m,
      transport tr0 (telegram_url (TELEGRAM_BOT_TOKEN config) "sendVideo") = Some r
      ∧ status_code r < 400 ∧ json r = Some d
      ∧ fields_get "result.message_id" d = Some m) →
  (∀ tr0,
      transport tr0 (telegram_url (TELEGRAM_BOT_TOKEN config) "pinChatMessage")
      = None) →
  let sent := Request (telegram_url (TELEGRAM_BOT_TOKEN config) "sendVideo") in
  let pin := Request (telegram_url (TELEGRAM_BOT_TOKEN config) "pinChatMessage") in
  publish_to_telegram video_path channel_id tr
  = (Returned None,
     tr ++ [sent; pin; AttemptFailed "Telegram" 1; Sleep (RETRY_DELAY * 1);
            sent; pin; AttemptFailed "Telegram" 2; Sleep (RETRY_DELAY * 2);
            sent; pin; AttemptFailed "Telegram" 3; GaveUp "Telegram"]).
Proof.
  intros Hr Htoken Hchannel Hsend Hpin sent pin.
  unfold PublisherAgent.publish_to_telegram. fold (telegram_channel channel_id).
  rewrite Htoken, Hchannel. cbn [negb orb].
  rewrite (with_retries_failing _ _ [sent; pin]); [done|].
  intros tr0. exists ConnectionError.
  unfold telegram_attempt, open_file, bindM, ret, send. rewrite Hr.
  destruct (Hsend tr0) as (r & d & m & -> & Hstatus & Hjson & Hfield).
  unfold raise_for_status, json_body, field, ret.
  replace (400 <=? status_code r) with false by (symmetry; apply Z.leb_gt; lia).
  cbn [andb]. rewrite Hjson, Hfield. rewrite Hpin.
  by rewrite <- app_assoc.
Qed.

End PublishersMore.

(** A transport on which Telegram accepts the video and refuses to pin. *)
Definition pin_refused (tr : list event) (url : string) : option response :=
  if String.eqb url (telegram_url "bot-token" "sendVideo")
  then Some {| status_code := 200; json := Some [("result.message_id", "77")];
               location := None |}
  else None.

Lemma publishers_skip_without_credentials_witness :
  PublisherAgent.publish_to_facebook
    {| YOUTUBE_CLIENT_ID := ""; YOUTUBE_CLIENT_SECRET := "";
       YOUTUBE_REFRESH_TOKEN := "";
       INSTAGRAM_ACCESS_TOKEN := ""; INSTAGRAM_PAGE_ID := "";
       FACEBOOK_ACCESS_TOKEN := "fb-token"; FACEBOOK_PAGE_ID := "";
       TELEGRAM_BOT_TOKEN := ""; TELEGRAM_CHANNEL_ID := "" |}
    failing_transport all_readable "final.mp4" []
  = (Returned None, []).
Proof.
  apply (publishers_skip_without_credentials
           {| YOUTUBE_CLIENT_ID := ""; YOUTUBE_CLIENT_SECRET := "";
              YOUTUBE_REFRESH_TOKEN := "";
              INSTAGRAM_ACCESS_TOKEN := ""; INSTAGRAM_PAGE_ID := "";
              FACEBOOK_ACCESS_TOKEN := "fb-token"; FACEBOOK_PAGE_ID := "";
              TELEGRAM_BOT_TOKEN := ""; TELEGRAM_CHANNEL_ID := "" |}
           failing_transport all_readable 1 24 demo_upload_url
           demo_thumbnail_url "final.mp4" None None []).
  right. reflexivity.
Defined.

Lemma telegram_resends_when_pin_fails_witness :
  PublisherAgent.publish_to_telegram demo_config pin_refused all_readable
    "final.mp4" None []
  = (Returned None,
     [Request "https://api.telegram.org/botbot-token/sendVideo";
      Request "https://api.telegram.org/botbot-token/pinChatMessage";
      AttemptFailed "Telegram" 1; Sleep 5;
      Request "https://api.telegram.org/botbot-token/sendVideo";
      Request "https://api.telegram.org/botbot-token/pinChatMessage";
      AttemptFailed "Telegram" 2; Sleep 10;
      Request "https://api.telegram.org/botbot-token/sendVideo";
      Request "https://api.telegram.org/botbot-token/pinChatMessage";
      AttemptFailed "Telegram" 3; GaveUp "Telegram"]).
Proof.
  apply (telegram_resends_when_pin_fails demo_config pin_refused all_readable
           "final.mp4" None []).
  - reflexivity.
  - reflexivity.
  - reflexivity.
  - intros tr0. exists {| status_code := 200;
                          json := Some [("result.message_id", "77")];
                          location := None |}.
    exists [("result.message_id", "77")], "77". repeat split.
  - intros tr0. reflexivity.
Defined.

End PublisherAgentMore.

(** ** agents/publisher_agent.py: further properties of the queue *)

Module PublisherQueueMore.
Import Py PyJson PublisherQueue.

(** [config.SCHEDULE["platforms"]] *)
Definition SCHEDULE_platforms : list string :=
  ["youtube"; "instagram"; "facebook"; "telegram"].

(** The loop of [_schedule_all]: an exception of [schedule_post] ends it. *)
Fixpoint schedule_all_loop (platforms : list string) (content_data : pyobj)
         (schedule_time : datetime) (results : list (string * string))
         (file : queue_file) : result (list (string * string)) * queue_file :=
  match platforms with
  | [] => (Ok results, file)
  | platform :: rest =>
      match schedule_post platform content_data schedule_time file with
      | (Ok entry_id, file') =>
          schedule_all_loop rest content_data schedule_time
            (dict_set platform ("scheduled:" +:+ entry_id) results) file'
      | (Raise e, file') => (Raise e, file')
      end
  end.

(** [_schedule_all] for the platforms of the configuration. *)
Definition _schedule_all (platforms : list string) (content_data : pyobj)
           (schedule_time : datetime) (file : queue_file)
  : result (list (string * string)) * queue_file :=
  schedule_all_loop platforms content_data schedule_time [] file.

(** *** Dictionaries and strings *)

Lemma dict_get_set_ne {V} k k' (v : V) d :
  k ≠ k' → dict_get k (dict_set k' v d) = dict_get k d.
Proof.
  intros Hne. induction d as [|[k0 v0] d IH]; simpl.
  - by rewrite decide_False.
  - destruct (decide (k' = k0)) as [->|Hk0]; simpl.
    + by rewrite !decide_False.
    + case_decide; [done|exact IH].
Qed.

Lemma dict_set_twice {V} k (v : V) d :
  dict_set k v (dict_set k v d) = dict_set k v d.
Proof.
  induction d as [|[k0 v0] d IH]; simpl.
  - by rewrite decide_True.
  - destruct (decide (k = k0)) as [->|Hk0]; simpl.
    + by rewrite decide_True.
    + rewrite decide_False by done. by rewrite IH.
Qed.

Lemma length_append a b :
  String.length (a +:+ b) = String.length a + String.length b.
Proof. induction a as [|c a IH]; simpl; [done|by rewrite IH]. Qed.

Lemma append_inj_suffix a b s : a +:+ s = b +:+ s → a = b.
Proof.
  revert b. induction a as [|c a IH]; intros [|c' b] Heq; simpl in *.
  - done.
  - apply (f_equal String.length) in Heq.
    rewrite ?length_append in Heq. simpl in Heq.
    rewrite ?length_append in Heq. lia.
  - apply (f_equal String.length) in Heq.
    rewrite ?length_append in Heq. simpl in Heq.
    rewrite ?length_append in Heq. lia.
  - injection Heq as -> Heq. f_equal. by apply IH.
Qed.

Lemma entry_id_of_inj p q t : entry_id_of p t = entry_id_of q t → p = q.
Proof. unfold entry_id_of. apply append_inj_suffix. Qed.

(** *** One call of [schedule_post] *)

Lemma all_some_none {A} (l : list (option A)) : None ∈ l → all_some l = None.
Proof.
  induction l as [|[x|] l IH]; simpl.
  - by intros ?%elem_of_nil.
  - intros [?|Hin]%elem_of_cons; [done|]. by rewrite IH.
  - done.
Qed.

Lemma dumps_dict_none d k v :
  (k, v) ∈ d → dumps v = None → dumps (PDict d) = None.
Proof.
  intros Hin Hv. simpl. rewrite all_some_none; [done|].
  apply list_elem_of_In, in_map_iff. exists (k, v). simpl. rewrite Hv.
  split; [done|]. by apply list_elem_of_In.
Qed.

Lemma dict_set_elem {V} k (v : V) d : (k, v) ∈ dict_set k v d.
Proof.
  induction d as [|[k0 v0] d IH]; simpl; [by left|].
  case_decide; [by left|by right].
Qed.

Lemma queue_entry_native platform content publish_time :
  json_native content → json_native (queue_entry platform content publish_time).
Proof.
  intros Hc. simpl. split; [|tauto]. apply (bool_decide_unpack _). by vm_compute.
Qed.

(** A call on a payload JSON represents as itself, with the queue file in
    order: the file afterwards holds the loaded queue with the entry set. *)
Lemma schedule_post_runs platform content publish_time file :
  json_native content → queue_file_ok file →
  ∃ d j,
    _load_queue file = PDict d
    ∧ schedule_post platform content publish_time file
      = (Ok (entry_id_of platform publish_time), Some (Some j))
    ∧ loads j = PDict (dict_set (entry_id_of platform publish_time)
                                (queue_entry platform content publish_time) d)
    ∧ queue_file_ok (Some (Some j)).
Proof.
  intros Hcontent Hfile.
  destruct (load_queue_dict file Hfile) as (d & Hload & [Hnd Hd]%json_native_dict).
  set (entry_id := entry_id_of platform publish_time).
  set (entry := queue_entry platform content publish_time).
  assert (json_native (PDict (dict_set entry_id entry d))) as Hqueue.
  { apply json_native_dict. split; [by apply dict_set_NoDup|].
    apply dict_set_Forall; [|done]. by apply queue_entry_native. }
  destruct (dumps_loads _ Hqueue) as (j & Hdump & Hback).
  exists d, j. split; [done|]. unfold schedule_post, _save_queue.
  rewrite Hload. fold entry_id entry. rewrite Hdump.
  split; [done|]. split; [done|].
  simpl in Hdump. destruct (all_some _); [|done].
  simpl in Hdump. by injection Hdump as <-.
Qed.

(** The results and the queue after the loop of [_schedule_all]. *)
Lemma schedule_all_loop_runs content t platforms :
  json_native content →
  ∀ results file, queue_file_ok file →
  ∃ results' file',
    schedule_all_loop platforms content t results file = (Ok results', file')
    ∧ queue_file_ok file'
    ∧ (∀ p, p ∈ platforms →
         dict_get p results' = Some ("scheduled:" +:+ entry_id_of p t)
         ∧ reload_entry (entry_id_of p t) file' = Some (queue_entry p content t))
    ∧ (∀ p, p ∉ platforms → dict_get p results' = dict_get p results)
    ∧ (∀ k, (∀ p, p ∈ platforms → k ≠ entry_id_of p t) →
         reload_entry k file' = reload_entry k file).
Proof.
  intros Hcontent.
  induction platforms as [|platform rest IH]; intros results file Hfile.
  - exists results, file. simpl. split; [done|]. split; [done|].
    split; [by intros p ?%elem_of_nil|]. split; done.
  - simpl.
    destruct (schedule_post_runs platform content t file Hcontent Hfile)
      as (d & j & Hload & -> & Hback & Hok).
    destruct (IH (dict_set platform ("scheduled:" +:+ entry_id_of platform t)
                           results) (Some (Some j)) Hok)
      as (results' & file' & -> & Hok' & Hin & Hout & Hkeep).
    exists results', file'. split; [done|]. split; [done|].
    assert (reload_entry (entry_id_of platform t) (Some (Some j))
            = Some (queue_entry platform content t)) as Hmine.
    { unfold reload_entry, _load_queue. rewrite Hback. apply dict_get_set. }
    assert (∀ k, k ≠ entry_id_of platform t →
              reload_entry k (Some (Some j)) = reload_entry k file) as Hothers.
    { intros k Hk. unfold reload_entry. simpl _load_queue at 1.
      rewrite Hback, Hload. by apply dict_get_set_ne. }
    split; [|split].
    + intros p Hmem.
      destruct (decide (p ∈ rest)) as [Hp|Hp]; [by apply Hin|].
      apply elem_of_cons in Hmem as [->|?]; [|done]. split.
      * rewrite (Hout _ Hp). apply dict_get_set.
      * rewrite Hkeep; [done|].
        intros q Hq Heq%entry_id_of_inj. by subst q.
    + intros p [Hne Hp]%not_elem_of_cons.
      rewrite (Hout _ Hp). by apply dict_get_set_ne.
    + intros k Hk. rewrite Hkeep.
      * apply Hothers, Hk. by left.
      * intros p Hp. apply Hk. by right.
Qed.

(** Scheduling a post leaves every other entry of the queue as it was. *)
Theorem schedule_post_keeps_other_entries (platform : string) (content : pyobj)
        (publish_time : datetime) (file : queue_file) (k : string) :
  json_native content →
  queue_file_ok file →
  k ≠ entry_id_of platform publish_time →
  reload_entry k (schedule_post platform content publish_time file).2
  = reload_entry k file.
Proof.
  intros Hcontent Hfile Hk.
  destruct (schedule_post_runs platform content publish_time file Hcontent Hfile)
    as (d & j & Hload & -> & Hback & _).
  unfold reload_entry. simpl. rewrite Hback, Hload. by apply dict_get_set_ne.
Qed.

(** Scheduling the same post a second time changes nothing: the entry id is
    the same and the queue file is left as the first call wrote it. *)
Theorem schedule_post_twice (platform : string) (content : pyobj)
        (publish_time : datetime) (file : queue_file) :
  json_native content →
  queue_file_ok file →
  schedule_post platform content publish_time
    (schedule_post platform content publish_time file).2
  = schedule_post platform content publish_time file.
Proof.
  intros Hcontent Hfile.
  destruct (schedule_post_runs platform content publish_time file Hcontent Hfile)
    as (d & j & Hload & Hrun & Hback & Hok).
  rewrite Hrun. simpl.
  destruct (schedule_post_runs platform content publish_time (Some (Some j))
              Hcontent Hok) as (d' & j' & Hload' & Hrun' & Hback' & _).
  rewrite Hrun'. simpl in Hload'. rewrite Hback in Hload'.
  injection Hload' as <-. rewrite dict_set_twice in Hback'.
  unfold schedule_post, _save_queue in Hrun, Hrun'.
  simpl _load_queue in Hrun'. rewrite Hback in Hrun'. rewrite Hload in Hrun.
  rewrite dict_set_twice in Hrun'.
  destruct (dumps (PDict (dict_set _ _ d))) as [j0|]; [|done].
  congruence.
Qed.

(** When the payload cannot be serialised (it holds a value that
    [json.dumps] rejects, such as a [Path]), [schedule_post] raises instead
    of returning an entry id and the queue file keeps its content, whatever
    it holds: the document is serialised before the file is opened for
    writing. *)
Theorem schedule_post_failure (platform : string) (content : pyobj)
        (publish_time : datetime) (file : queue_file) :
  dumps content = None →
  ∃ e, schedule_post platform content publish_time file = (Raise e, file).
Proof.
  intros Hcontent. unfold schedule_post, _save_queue.
  destruct (_load_queue file); try by eexists.
  rewrite (dumps_dict_none _ (entry_id_of platform publish_time)
             (queue_entry platform content publish_time)); [by eexists| |].
  - apply dict_set_elem.
  - apply (dumps_dict_none _ "content" content); [|done].
    right. by left.
Qed.

(** [_schedule_all] on a payload JSON represents as itself: every platform
    is answered by ["scheduled:<platform>_<timestamp>"], the queue then
    holds the pending record of every platform, and the entries of other
    keys are as before. *)
Theorem schedule_all_queues_every_platform (platforms : list string)
        (content : pyobj) (schedule_time : datetime) (file : queue_file) :
  json_native content →
  queue_file_ok file →
  ∃ results file',
    _schedule_all platforms content schedule_time file = (Ok results, file')
    ∧ (∀ p, p ∈ platforms →
         dict_get p results = Some ("scheduled:" +:+ entry_id_of p schedule_time)
         ∧ reload_entry (entry_id_of p schedule_time) file'
           = Some (queue_entry p content schedule_time))
    ∧ (∀ p, p ∉ platforms → dict_get p results = None)
    ∧ (∀ k, (∀ p, p ∈ platforms → k ≠ entry_id_of p schedule_time) →
         reload_entry k file' = reload_entry k file).
Proof.
  intros Hcontent Hfile. unfold _schedule_all.
  destruct (schedule_all_loop_runs content schedule_time platforms Hcontent
              [] file Hfile)
    as (results & file' & Hrun & _ & Hin & Hout & Hkeep).
  exists results, file'. split; [done|]. split; [done|]. split; [|done].
  intros p Hp. by rewrite (Hout p Hp).
Qed.

Lemma schedule_post_keeps_other_entries_witness :
  reload_entry "facebook_20240531_090000"
    (schedule_post "youtube" plain_content tonight
       (Some (Some (JObj [("facebook_20240531_090000",
                           JObj [("status", JStr "pending")])])))).2
  = Some (PDict [("status", PStr "pending")]).
Proof.
  apply (schedule_post_keeps_other_entries "youtube" plain_content tonight
           (Some (Some (JObj [("facebook_20240531_090000",
                               JObj [("status", JStr "pending")])])))
           "facebook_20240531_090000").
  - simpl. repeat split; apply (bool_decide_unpack _); by vm_compute.
  - exact I.
  - vm_compute. discriminate.
Defined.

Lemma schedule_post_twice_witness :
  schedule_post "youtube" plain_content tonight
    (schedule_post "youtube" plain_content tonight None).2
  = schedule_post "youtube" plain_content tonight None.
Proof.
  apply (schedule_post_twice "youtube" plain_content tonight None).
  - simpl. repeat split; apply (bool_decide_unpack _); by vm_compute.
  - exact I.
Defined.

Lemma schedule_post_failure_witness :
  ∃ e,
    schedule_post "youtube" thumbnail_content tonight
      (Some (Some (JObj [("facebook_20240531_090000",
                          JObj [("status", JStr "pending")])])))
    = (Raise e,
       Some (Some (JObj [("facebook_20240531_090000",
                          JObj [("status", JStr "pending")])]))).
Proof.
  apply (schedule_post_failure "youtube" thumbnail_content tonight).
  vm_compute. reflexivity.
Defined.

Lemma schedule_all_queues_every_platform_witness :
  ∃ results file',
    _schedule_all SCHEDULE_platforms plain_content tonight None
    = (Ok results, file')
    ∧ (∀ p, p ∈ SCHEDULE_platforms →
         dict_get p results = Some ("scheduled:" +:+ entry_id_of p tonight)
         ∧ reload_entry (entry_id_of p tonight) file'
           = Some (queue_entry p plain_content tonight))
    ∧ (∀ p, p ∉ SCHEDULE_platforms → dict_get p results = None)
    ∧ (∀ k, (∀ p, p ∈ SCHEDULE_platforms → k ≠ entry_id_of p tonight) →
         reload_entry k file' = reload_entry k None).
Proof.
  apply (schedule_all_queues_every_platform SCHEDULE_platforms plain_content
           tonight None).
  - simpl. repeat split; apply (bool_decide_unpack _); by vm_compute.
  - exact I.
Defined.

Example schedule_all_results :
  (_schedule_all SCHEDULE_platforms plain_content tonight None).1
  = Ok [("youtube", "scheduled:youtube_20240601_200005");
        ("instagram", "scheduled:instagram_20240601_200005");
        ("facebook", "scheduled:facebook_20240601_200005");
        ("telegram", "scheduled:telegram_20240601_200005")].
Proof. vm_compute. reflexivity. Qed.

End PublisherQueueMore.

(** ** agents/analytics_agent.py: the content log, row ids, video ids and
    the content strategy *)

Module AnalyticsAgentMore.
Import Py PyJson AnalyticsAgent.
Local Open Scope Z_scope.

(** *** [log_content] *)

(** A row of the [content] table; [post_ids] is the document written by
    [json.dumps(post_ids)]. *)
Record content_row := {
  content_id : Z;
  created_at : string;
  content_topic : string;
  style : string;
  script_path : string;
  video_path : string;
  post_ids : json
}.

(** The [content] table and the largest row id handed out. *)
Record content_table := {
  content : list content_row;
  content_seq : Z
}.

(** One call of [log_content], with [datetime.now().isoformat()]. *)
Record log_call := {
  log_now : string;
  log_topic : string;
  log_style : string;
  log_script_path : string;
  log_video_path : string;
  log_post_ids : pyobj
}.

(** [log_content]: a plain [INSERT]; when [json.dumps(post_ids)] raises, the
    exception is caught (a warning is logged) and nothing is written. *)
Definition log_content (table : content_table) (c : log_call) : content_table :=
  match dumps (log_post_ids c) with
  | Some ids =>
      let rowid := content_seq table + 1 in
      {| content := content table
                    ++ [ {| content_id := rowid; created_at := log_now c;
                            content_topic := log_topic c; style := log_style c;
                            script_path := log_script_path c;
                            video_path := log_video_path c;
                            post_ids := ids |} ];
         content_seq := rowid |}
  | None => table
  end.

Definition log_contents (table : content_table) (calls : list log_call)
  : content_table :=
  foldl log_content table calls.

(** The calls whose post ids serialise. *)
Definition logged (calls : list log_call) : list log_call :=
  filter (λ c, is_Some (dumps (log_post_ids c))) calls.

(** *** The video id read from a post id *)

(** [needle in s] *)
Fixpoint contains (needle s : string) : bool :=
  String.prefix needle s
  || match s with
     | EmptyString => false
     | String _ rest => contains needle rest
     end.

(** [s.split(sep)] for a separator that is not empty: [skip] characters of
    a separator just found are still to be passed over, [cur] is the piece
    being read. *)
Fixpoint split_go (sep : string) (skip : nat) (cur : string) (s : string)
  : list string :=
  match s with
  | EmptyString => [cur]
  | String c rest =>
      match skip with
      | S k => split_go sep k cur rest
      | O =>
          if String.prefix sep s
          then cur :: split_go sep (String.length sep - 1) "" rest
          else split_go sep 0 (cur +:+ String c "") rest
      end
  end.

Definition split_sep (sep s : string) : list string := split_go sep 0 "" s.

(** [str(pid).split("v=")[-1] if "youtube.com" in str(pid) else str(pid)] *)
Definition youtube_video_id (pid : string) : string :=
  if contains "youtube.com" pid
  then List.last (split_sep "v=" pid) ""
  else pid.

(** The link [publish_to_youtube] returns for an uploaded video. *)
Definition youtube_watch_url (video_id : string) : string :=
  "https://www.youtube.com/watch?v=" +:+ video_id.

(** *** [update_content_strategy] *)

Record strategy := {
  recommended_styles : list string;
  best_post_times : list string;
  top_hashtags : list string
}.

Section Strategy.

(** [config.CONTENT_STYLE["video_styles"]], [config.SCHEDULE["post_times"]]
    and [config.LOCATION]. *)
Variable video_styles : list string.
Variable post_times : list string.
Variable location : Config.location.

(** [any(word in topic.lower() for word in style.lower().split())]:
    [topic.lower()] is evaluated for every word tried, so a topic that is
    not a [str] raises as soon as the style has a word. *)
Definition style_matches (topic : TrendAgent.pyval) (style : string)
  : result bool :=
  match split (lower style) with
  | [] => Ok false
  | _ :: _ as words =>
      bind (TrendAgent.as_str topic) (λ t,
        Ok (existsb (λ word, contains word (lower t)) words))
  end.

(** The inner loop: the first style that matches, if any. *)
Fixpoint first_style (topic : TrendAgent.pyval) (styles : list string)
  : result (option string) :=
  match styles with
  | [] => Ok None
  | style :: rest =>
      bind (style_matches topic style) (λ found,
        if found then Ok (Some style) else first_style topic rest)
  end.

Definition style_for (topic : TrendAgent.pyval) : result (option string) :=
  first_style topic video_styles.

Definition update_content_strategy (best_topics : list TrendAgent.topic_dict)
  : result strategy :=
  bind (mapM (λ item, style_for (TrendAgent.get_topic item))
             (take 3 best_topics)) (λ found,
    let recommended := omap (λ style : option string, style) found in
    Ok {| recommended_styles :=
            match recommended with
            | [] => take 3 video_styles
            | _ :: _ => recommended
            end;
          best_post_times := post_times;
          top_hashtags := take 10 (Config.hashtags location) |}).

End Strategy.

(** [config.CONTENT_STYLE["video_styles"]] and
    [config.SCHEDULE["post_times"]] as shipped. *)
Definition VIDEO_STYLES : list string :=
  ["top 5 hidden gems"; "best food spots"; "day in the life";
   "historical facts"; "sunset spots"; "local culture"].

Definition POST_TIMES : list string := ["09:00"; "17:00"; "20:00"].

(** *** The content log only grows *)

Lemma log_content_appends table c :
  content (log_content table c)
  = content table
    ++ match dumps (log_post_ids c) with
       | Some ids =>
           [ {| content_id := content_seq table + 1; created_at := log_now c;
                content_topic := log_topic c; style := log_style c;
                script_path := log_script_path c;
                video_path := log_video_path c; post_ids := ids |} ]
       | None => []
       end.
Proof.
  unfold log_content. destruct (dumps (log_post_ids c)); simpl; [done|].
  by rewrite app_nil_r.
Qed.

Lemma log_contents_rows calls : ∀ table,
  ∃ rows,
    content (log_contents table calls) = content table ++ rows
    ∧ content_topic <$> rows = log_topic <$> logged calls
    ∧ created_at <$> rows = log_now <$> logged calls.
Proof.
  induction calls as [|c calls IH]; intros table.
  - exists []. simpl. by rewrite app_nil_r.
  - simpl. destruct (IH (log_content table c)) as (rows & -> & Htopics & Htimes).
    rewrite log_content_appends. unfold logged in *. rewrite filter_cons.
    destruct (dumps (log_post_ids c)) as [ids|] eqn:Hids.
    + rewrite decide_True by (by eexists). eexists (_ :: rows).
      rewrite <- app_assoc. split; [done|].
      rewrite !fmap_cons. simpl. by rewrite Htopics, Htimes.
    + rewrite decide_False by (by intros [? ?]). exists rows.
      by rewrite app_nil_r.
Qed.

(** The content log is append-only: whatever calls of [log_content] follow,
    the rows already there stay in place unchanged, and exactly one row is
    added, in call order, for each call whose post ids serialise. *)
Theorem log_content_append_only (table : content_table) (calls : list log_call) :
  content table `prefix_of` content (log_contents table calls)
  ∧ length (content (log_contents table calls))
    = (length (content table) + length (logged calls))%nat
  ∧ content_topic <$> drop (length (content table))
                           (content (log_contents table calls))
    = log_topic <$> logged calls.
Proof.
  destruct (log_contents_rows calls table) as (rows & Hrows & Htopics & _).
  rewrite Hrows. split; [by exists rows|]. split.
  - rewrite length_app. f_equal.
    by rewrite <- (length_fmap content_topic), Htopics, length_fmap.
  - by rewrite drop_app_length.
Qed.

(** *** Row ids of the performance table *)

Definition ids_in_order (db : database) : Prop :=
  NoDup (id <$> performance db)
  ∧ Forall (λ r, 1 <= id r <= performance_seq db) (performance db)
  ∧ 0 <= performance_seq db.

Lemma insert_or_replace_ids db platform post_id date mj topic :
  ids_in_order db →
  ids_in_order (insert_or_replace db platform post_id date mj topic).
Proof.
  intros (Hnd & Hall & Hseq). unfold ids_in_order, insert_or_replace. simpl.
  set (kept := filter _ (performance db)).
  assert (sublist kept (performance db)) as Hsub by apply sublist_filter.
  assert (Forall (λ r, 1 <= id r <= performance_seq db) kept) as Hkept.
  { apply Forall_forall. intros r Hr. rewrite Forall_forall in Hall.
    apply Hall. by eapply elem_of_sublist. }
  split; [|split; [|lia]].
  - rewrite fmap_app. apply NoDup_app. split; [|split].
    + by apply (TrendAgentMore.sublist_NoDup_fmap id kept (performance db)).
    + intros i (r & -> & Hr)%list_elem_of_fmap.
      simpl. intros Heq%list_elem_of_singleton.
      rewrite Forall_forall in Hkept. specialize (Hkept r Hr). simpl in *. lia.
    + simpl. apply NoDup_singleton.
  - apply Forall_app. split.
    + eapply Forall_impl; [exact Hkept|]. simpl. intros; lia.
    + constructor; [simpl; lia|constructor].
Qed.

Lemma run_calls_ids calls : ∀ db, ids_in_order db → ids_in_order (run_calls db calls).
Proof.
  induction calls as [|c calls IH]; intros db Hdb; simpl; [done|].
  apply IH. unfold run_call, store_metrics.
  destruct (dumps (call_metrics c)); simpl; [|done].
  by apply insert_or_replace_ids.
Qed.

(** Row ids of the performance table are never reused: after any sequence
    of [store_metrics] calls on a fresh database the ids of the rows are
    pairwise distinct and lie between 1 and the counter of ids handed
    out. *)
Theorem store_metrics_row_ids (calls : list store_call) :
  let db := run_calls (_init_db None) calls in
  NoDup (id <$> performance db)
  ∧ Forall (λ r, 1 <= id r <= performance_seq db) (performance db).
Proof.
  intros db.
  assert (ids_in_order db) as (Hnd & Hall & _); [|done].
  apply run_calls_ids. unfold ids_in_order. simpl.
  split; [constructor|]. split; [constructor|lia].
Qed.

(** *** Reading the video id back from the published link *)

Lemma append_snoc a c rest : (a +:+ String c "") +:+ rest = a +:+ String c rest.
Proof.
  induction a as [|x a IH]; [done|].
  change (String x ((a +:+ String c "") +:+ rest) = String x (a +:+ String c rest)).
  by f_equal.
Qed.

Lemma append_empty a : a +:+ "" = a.
Proof.
  induction a as [|x a IH]; [done|].
  change (String x (a +:+ "") = String x a). by f_equal.
Qed.

Lemma prefix_empty s : String.prefix "" s = true.
Proof. by destruct s. Qed.

Lemma split_go_no_sep sep s : ∀ cur,
  contains sep s = false → split_go sep 0 cur s = [cur +:+ s].
Proof.
  induction s as [|c s IH]; intros cur Hno.
  - simpl. by rewrite append_empty.
  - cbn [contains] in Hno. apply orb_false_elim in Hno as [Hpre Hrest].
    cbn [split_go]. rewrite Hpre. rewrite IH by done.
    by rewrite append_snoc.
Qed.

(** The id extracted from the link that [publish_to_youtube] returns is the
    id of the uploaded video, as long as the id itself does not contain
    ["v="]; a post id that is not a YouTube link is used as it is. *)
Theorem youtube_video_id_of_watch_url (video_id pid : string) :
  (contains "v=" video_id = false →
   youtube_video_id (youtube_watch_url video_id) = video_id)
  ∧ (contains "youtube.com" pid = false → youtube_video_id pid = pid).
Proof.
  split.
  - intros Hno. unfold youtube_video_id, youtube_watch_url.
    assert (contains "youtube.com"
              ("https://www.youtube.com/watch?v=" +:+ video_id) = true) as ->
      by (by vm_compute).
    unfold split_sep. cbv [String.append]. cbn -[String.length Nat.sub].
    rewrite prefix_empty. cbn.
    rewrite (split_go_no_sep "v=" video_id "" Hno). done.
  - intros Hno. unfold youtube_video_id. by rewrite Hno.
Qed.

Lemma youtube_video_id_of_watch_url_witness :
  youtube_video_id (youtube_watch_url "dQw4w9WgXcQ") = "dQw4w9WgXcQ".
Proof.
  apply (youtube_video_id_of_watch_url "dQw4w9WgXcQ" "").
  vm_compute. reflexivity.
Defined.

(** *** The recommended styles *)


Section StrategyProps.

Variable video_styles : list string.
Variable post_times : list string.
Variable location : Config.location.






End StrategyProps.


(** The word "the" of "day in the life" occurs in the first topic. *)
Example update_content_strategy_sunset :
  recommended_styles
    <$> match update_content_strategy VIDEO_STYLES POST_TIMES Config.LOCATION
                [TrendAgent.default_entry "Sunset over the medina";
                 TrendAgent.default_entry "Street food of Tunis"] with
        | Ok s => Some s
        | Raise _ => None
        end
  = Some ["day in the life"; "best food spots"].
Proof. vm_compute. reflexivity. Qed.

(** A topic read back as a number has no [lower]. *)
Example update_content_strategy_number :
  update_content_strategy VIDEO_STYLES POST_TIMES Config.LOCATION
    [{| TrendAgent.topic := Some (TrendAgent.PyInt 2024);
        TrendAgent.score := None; TrendAgent.source := None |}]
  = Raise AttributeError.
Proof. vm_compute. reflexivity. Qed.

End AnalyticsAgentMore.

(** ** agents/image_agent.py: [collect_all_images], the caller of
    [deduplicate_files] *)

Module ImageAgent.
Import FileManager.
Local Open Scope nat_scope.

(** What [asyncio.gather(..., return_exceptions=True)] holds for one source
    search: the downloaded paths, or the exception the search raised. *)
Inductive gathered :=
| Downloaded (paths : list Path)
| SearchRaised.

(** [for result in results: if isinstance(result, list): extend] *)
Fixpoint gather_paths (results : list gathered) : list Path :=
  match results with
  | [] => []
  | Downloaded paths :: rest => paths ++ gather_paths rest
  | SearchRaised :: rest => gather_paths rest
  end.

Section Collect.

(** The file system when the gathered downloads are deduplicated, and after
    the fallback search has downloaded more files. *)
Variable fs_first fs_second : Path → option (list Byte.byte).
Variable md5 : list Byte.byte → Digest.

(** [self.search_unsplash(location_name, count)] of the fallback. *)
Variable search_unsplash : nat → list Path.

(** [_resize_to_video_format]: the resized copy, or [None] when resizing
    fails. *)
Variable _resize_to_video_format : Path → option Path.

(** [_create_placeholder(index)]: the placeholder path, or [None] when
    drawing or saving it raises. *)
Variable _create_placeholder : nat → option Path.

(** The loop [for p in all_paths[:total_needed]]. *)
Definition resize_all (paths : list Path) : list Path :=
  omap _resize_to_video_format paths.

(** The loop [while len(resized) < total_needed], which appends one path
    per round: [missing] rounds are left. *)
Fixpoint pad_loop (missing : nat) (resized : list Path) : option (list Path) :=
  match missing with
  | O => Some resized
  | S missing' =>
      match last resized with
      | Some p => pad_loop missing' (resized ++ [p])
      | None =>
          match _create_placeholder (length resized) with
          | Some p => pad_loop missing' (resized ++ [p])
          | None => None
          end
      end
  end.

(** [collect_all_images]; [None] stands for the exception of
    [_create_placeholder]. *)
Definition collect_all_images (results : list gathered) (total_needed : nat)
  : option (list Path) :=
  let all_paths := deduplicate_files fs_first md5 (gather_paths results) in
  let all_paths :=
    if length all_paths <? total_needed
    then deduplicate_files fs_second md5
           (all_paths ++ search_unsplash (total_needed - length all_paths + 3))
    else all_paths in
  let resized := resize_all (take total_needed all_paths) in
  take total_needed <$> pad_loop (total_needed - length resized) resized.

(** The images resized before padding. *)
Definition resized_images (results : list gathered) (total_needed : nat)
  : list Path :=
  let all_paths := deduplicate_files fs_first md5 (gather_paths results) in
  let all_paths :=
    if length all_paths <? total_needed
    then deduplicate_files fs_second md5
           (all_paths ++ search_unsplash (total_needed - length all_paths + 3))
    else all_paths in
  resize_all (take total_needed all_paths).

(** *** The padding loop *)

Lemma pad_loop_last missing : ∀ resized p,
  last resized = Some p →
  pad_loop missing resized = Some (resized ++ replicate missing p).
Proof.
  induction missing as [|m IH]; intros resized p Hlast; simpl.
  - by rewrite app_nil_r.
  - rewrite Hlast. rewrite (IH _ p) by (by rewrite last_snoc).
    by rewrite <- app_assoc.
Qed.

Lemma pad_loop_empty missing :
  pad_loop (S missing) []
  = (λ p, replicate (S missing) p) <$> _create_placeholder 0.
Proof.
  simpl. destruct (_create_placeholder 0) as [p|]; [|done].
  simpl. by rewrite (pad_loop_last _ [p] p).
Qed.

Lemma resize_all_length paths : length (resize_all paths) ≤ length paths.
Proof.
  unfold resize_all. induction paths as [|p paths IH]; csimpl; [done|].
  destruct (_resize_to_video_format p); csimpl; lia.
Qed.

Lemma resized_images_length results total_needed :
  length (resized_images results total_needed) ≤ total_needed.
Proof.
  unfold resized_images. etrans; [apply resize_all_length|].
  rewrite length_take. lia.
Qed.

(** [collect_all_images] returns exactly [total_needed] paths: the resized
    images in order, followed by repetitions of the last of them.  Only when
    no image at all could be resized is a placeholder drawn, once, and
    returned [total_needed] times; the call fails only if that placeholder
    cannot be created. *)
Theorem collect_all_images_exact (results : list gathered) (total_needed : nat) :
  let resized := resized_images results total_needed in
  (∀ images, collect_all_images results total_needed = Some images →
     length images = total_needed)
  ∧ (∀ p, last resized = Some p →
       collect_all_images results total_needed
       = Some (resized ++ replicate (total_needed - length resized) p))
  ∧ (resized = [] →
       collect_all_images results total_needed
       = match total_needed with
         | O => Some []
         | S _ => (λ p, replicate total_needed p) <$> _create_placeholder 0
         end).
Proof.
  intros resized.
  pose proof (resized_images_length results total_needed) as Hlen.
  fold resized in Hlen.
  assert (collect_all_images results total_needed
          = take total_needed
              <$> pad_loop (total_needed - length resized) resized) as ->
    by reflexivity.
  assert (∀ p, last resized = Some p →
            take total_needed
              <$> pad_loop (total_needed - length resized) resized
            = Some (resized ++ replicate (total_needed - length resized) p))
    as Hlast.
  { intros p Hp. rewrite (pad_loop_last _ _ p Hp). simpl. f_equal.
    apply take_ge. rewrite length_app, length_replicate. lia. }
  assert (resized = [] →
            take total_needed
              <$> pad_loop (total_needed - length resized) resized
            = match total_needed with
              | O => Some []
              | S _ => (λ p, replicate total_needed p) <$> _create_placeholder 0
              end) as Hempty.
  { intros ->. simpl. rewrite Nat.sub_0_r. destruct total_needed as [|n]; [done|].
    rewrite pad_loop_empty. destruct (_create_placeholder 0) as [p|]; [|done].
    cbn [fmap option_fmap option_map]. f_equal.
    apply take_ge. rewrite length_replicate. lia. }
  split; [|by split].
  intros images. destruct (last resized) as [p|] eqn:Hp.
  - rewrite (Hlast p eq_refl). intros [= <-].
    rewrite length_app, length_replicate. lia.
  - apply last_None in Hp. rewrite (Hempty Hp).
    destruct total_needed as [|n]; [by intros [= <-]|].
    destruct (_create_placeholder 0) as [p|]; [|done].
    cbn [fmap option_fmap option_map]. intros Heq.
    assert (images = replicate (S n) p) as -> by congruence.
    by rewrite length_replicate.
Qed.

End Collect.

(** An instance for examples: three downloads of which two agree, a resize
    that fails on one file, and no fallback results. *)
Definition demo_resize (p : Path) : option Path :=
  if String.eqb p "b.jpg" then None else Some ("resized_" +:+ p).

Definition demo_placeholder (index : nat) : option Path :=
  Some "placeholder_00.jpg".

Example collect_all_images_demo :
  collect_all_images demo_fs demo_fs demo_digest (λ _, []) demo_resize
    demo_placeholder
    [Downloaded ["a.jpg"; "b.jpg"]; SearchRaised; Downloaded ["a_copy.jpg"; "c.jpg"]]
    4
  = Some ["resized_a.jpg"; "resized_c.jpg"; "resized_c.jpg"; "resized_c.jpg"].
Proof. vm_compute. reflexivity. Qed.

Lemma collect_all_images_exact_witness :
  length ["resized_a.jpg"; "resized_c.jpg"; "resized_c.jpg"; "resized_c.jpg"] = 4.
Proof.
  apply (collect_all_images_exact demo_fs demo_fs demo_digest (λ _, [])
           demo_resize demo_placeholder
           [Downloaded ["a.jpg"; "b.jpg"]; SearchRaised;
            Downloaded ["a_copy.jpg"; "c.jpg"]] 4).
  vm_compute. reflexivity.
Defined.

End ImageAgent.
